(** * On-demand video decoder: GOP index, key-frame seek, task runner, asynchronous decode

    A shallow embedding of the algorithmic core of the PyNvOnDemandDecoder
    extension:

    - [GopDecoderUtils.hpp]: [iskeyFrame], [hasKeyFrameNalType],
      [parse_gop_start_idx], [parse_gop_length] and [hasDuplicates];
    - [PyNvGopDemuxer.cpp]: [getKeyFrameId] and [SeekGopFirstFrameNoMap];
    - [ThreadPool.hpp]: the [ThreadRunner] state machine;
    - [PyNvSampleReader.cpp]: [validate_request] and
      [DecodeN12ToRGBAsyncGetBuffer].

    C++ [int] and [int64_t] values are integers of [Z] (frame numbers
    and sizes stay far from the ends of their types; the one
    narrowing conversion of the source is written out as [to_int32]); a
    [std::vector] is a [list]; [std::map] and [std::unordered_map] are
    [gmap]s.  A call either returns, throws, or has no defined behaviour (a
    read outside a buffer, a dereference of [end()]): the three cases of
    [outcome]. *)

From Stdlib Require Import ZArith Lia Sorted.
From stdpp Require Import base decidable option list gmap strings pretty fin_maps sorting.

Local Open Scope Z_scope.

(** ** Exceptions and outcomes *)

Inductive exception_kind : Type :=
  | std_domain_error
  | std_invalid_argument
  | std_out_of_range
  | std_runtime_error
  | foreign_exception.

(** An exception object: its C++ class, the fixed part of [what()] and the
    numbers the source splices into the message with [std::to_string]. *)
Record exception : Type := Exception {
  kind : exception_kind;
  what : string;
  what_args : list Z
}.

Inductive outcome (A : Type) : Type :=
  | Return (a : A)
  | Throw (e : exception)
  | Undefined.
Arguments Return {A} a.
Arguments Throw {A} e.
Arguments Undefined {A}.

#[global] Instance outcome_ret : MRet outcome := @Return.
#[global] Instance outcome_bind : MBind outcome := fun A B f m =>
  match m with
  | Return a => f a
  | Throw e => Throw e
  | Undefined => Undefined
  end.

(** Reading [v[i]] from a buffer of known extent. *)
Definition at_index {A} (v : list A) (i : Z) : outcome A :=
  if decide (0 <= i) then
    match v !! Z.to_nat i with
    | Some x => Return x
    | None => Undefined
    end
  else Undefined.

(** ** Key-frame classifier (GopDecoderUtils.hpp) *)

Module Classifier.

(** [AVCodecID] is declared by FFmpeg; only three of its members are named
    by the source, every other member keeps its number. *)
Inductive AVCodecID : Type :=
  | AV_CODEC_ID_H264
  | AV_CODEC_ID_HEVC
  | AV_CODEC_ID_AV1
  | AV_CODEC_ID_other (id : Z).

(** [AV_PKT_FLAG_KEY] of libavcodec's packet.h. *)
Definition AV_PKT_FLAG_KEY : Z := 1.

Definition H264_NAL_SEI : Z := 6.
Definition H264_NAL_SPS : Z := 7.
Definition H264_NAL_PPS : Z := 8.
Definition H264_NAL_AUD : Z := 9.

Definition HEVC_NAL_VPS : Z := 32.
Definition HEVC_NAL_SPS : Z := 33.
Definition HEVC_NAL_PPS : Z := 34.
Definition HEVC_NAL_PREFIX_SEI : Z := 39.
Definition HEVC_NAL_SUFFIX_SEI : Z := 40.

Definition OBU_SEQUENCE_HEADER : Z := 1.

(** The bytes a non-null [const uint8_t*] points at. *)
Definition packet : Type := list Byte.byte.

Definition byte_at (pVideo : packet) (i : Z) : outcome Z :=
  b ← at_index pVideo i; Return (Z.of_N (Byte.to_N b)).

(** [uint8_t b = pVideo[2] == 1 ? pVideo[3] : pVideo[4];] *)
Definition nal_header_byte (pVideo : packet) : outcome Z :=
  b2 ← byte_at pVideo 2;
  if decide (b2 = 1) then byte_at pVideo 3 else byte_at pVideo 4.

Definition unsupported_codec (codec_id : AVCodecID) : exception :=
  Exception std_domain_error "[ERROR] Unsupported video codec: "
    match codec_id with AV_CODEC_ID_other id => [id] | _ => [] end.

Definition is_hevc_parameter_set (nal_unit_type : Z) : bool :=
  bool_decide (nal_unit_type = HEVC_NAL_VPS) || bool_decide (nal_unit_type = HEVC_NAL_SPS) ||
  bool_decide (nal_unit_type = HEVC_NAL_PPS) || bool_decide (nal_unit_type = HEVC_NAL_PREFIX_SEI) ||
  bool_decide (nal_unit_type = HEVC_NAL_SUFFIX_SEI).

Definition is_h264_parameter_set (nal_unit_type : Z) : bool :=
  bool_decide (nal_unit_type = H264_NAL_SEI) || bool_decide (nal_unit_type = H264_NAL_SPS) ||
  bool_decide (nal_unit_type = H264_NAL_PPS) || bool_decide (nal_unit_type = H264_NAL_AUD).

(** [iskeyFrame]: the unit type test and the container's key flag. *)
Definition iskeyFrame (codec_id : AVCodecID) (pVideo : option packet) (demux_flags : Z)
  : outcome bool :=
  match pVideo with
  | None => Return false
  | Some p =>
    bPS ← match codec_id with
          | AV_CODEC_ID_HEVC =>
              b ← nal_header_byte p;
              let nal_unit_type := Z.shiftr b 1 in
              Return (if is_hevc_parameter_set nal_unit_type then true else false)
          | AV_CODEC_ID_H264 =>
              b ← nal_header_byte p;
              let nal_unit_type := Z.land b 31 in
              Return (if is_h264_parameter_set nal_unit_type then true else false)
          | AV_CODEC_ID_AV1 =>
              obu_header ← byte_at p 0;
              let obu_type := Z.land (Z.shiftr obu_header 3) 15 in
              Return (if bool_decide (obu_type = OBU_SEQUENCE_HEADER) then true else false)
          | AV_CODEC_ID_other _ => Throw (unsupported_codec codec_id)
          end;
    Return (negb (Z.land demux_flags AV_PKT_FLAG_KEY =? 0) && bPS)
  end.

(** [hasKeyFrameNalType]: the unit type test alone. *)
Definition hasKeyFrameNalType (codec_id : AVCodecID) (pVideo : option packet) : outcome bool :=
  match pVideo with
  | None => Return false
  | Some p =>
    match codec_id with
    | AV_CODEC_ID_HEVC =>
        b ← nal_header_byte p;
        let nal_unit_type := Z.shiftr b 1 in
        Return (is_hevc_parameter_set nal_unit_type)
    | AV_CODEC_ID_H264 =>
        b ← nal_header_byte p;
        let nal_unit_type := Z.land b 31 in
        Return (is_h264_parameter_set nal_unit_type)
    | AV_CODEC_ID_AV1 =>
        obu_header ← byte_at p 0;
        let obu_type := Z.land (Z.shiftr obu_header 3) 15 in
        Return (bool_decide (obu_type = OBU_SEQUENCE_HEADER))
    | AV_CODEC_ID_other _ => Throw (unsupported_codec codec_id)
    end
  end.

Definition supported (codec_id : AVCodecID) : bool :=
  match codec_id with AV_CODEC_ID_other _ => false | _ => true end.

Definition key_flag_set (demux_flags : Z) : bool :=
  negb (Z.land demux_flags AV_PKT_FLAG_KEY =? 0).

End Classifier.

(** ** Binary searches of the standard library

    [std::lower_bound] and [std::upper_bound] return the partition point of
    the range: the first position whose element is not less than (resp. is
    greater than) the value, as an offset from [begin()]; the length of the
    range stands for [end()]. *)

Fixpoint lower_bound (v : list Z) (value : Z) : Z :=
  match v with
  | [] => 0
  | x :: v' => if decide (x < value) then 1 + lower_bound v' value else 0
  end.

Fixpoint upper_bound (v : list Z) (value : Z) : Z :=
  match v with
  | [] => 0
  | x :: v' => if decide (value < x) then 0 else 1 + upper_bound v' value
  end.

(** [v.back()]: undefined on an empty vector. *)
Definition back {A} (v : list A) : outcome A :=
  match last v with
  | Some x => Return x
  | None => Undefined
  end.

(** ** GOP index builder (GopDecoderUtils.hpp) *)

Module GopIndex.
Import Classifier.

(** What one call of [FFmpegDemuxer::Demux] hands back through its result
    and its four out-parameters. *)
Record demux_result : Type := DemuxResult {
  ret : bool;
  pVideo : option packet;
  nVideoBytes : Z;
  timestamp : Z;
  flags : Z
}.

(** Modelled from the spec: the demultiplexer [FFmpegDemuxer] is an external
    collaborator, "a pull-style next-packet call returning (compressed
    bytes, byte count, timestamp, flags) or end-of-stream" together with the
    codec-family identification.  The packets still to be pulled are a
    list; past its end every call reports end of stream (no bytes). *)
Record FFmpegDemuxer : Type := {
  GetVideoCodec : AVCodecID;
  packets : list demux_result
}.

Definition demux_error : exception :=
  Exception std_invalid_argument "[ERROR] Demux error" [].

Definition empty_video : exception :=
  Exception std_out_of_range "[ERROR] The video must have at least one GOP" [].

(** The [do { ... } while (nVideoBytes)] pass: it stops at the first call
    that delivers no bytes, throws on a failed call that delivered bytes and
    otherwise records (timestamp, is_key_frame). *)
Fixpoint demux_pass (codec_id : AVCodecID) (pending : list demux_result)
  : outcome (list (Z * bool)) :=
  match pending with
  | [] => Return []
  | r :: pending' =>
      if decide (nVideoBytes r = 0) then Return []
      else if ret r then
        is_key_frame ← iskeyFrame codec_id (pVideo r) (flags r);
        pts_keyFrame_pair ← demux_pass codec_id pending';
        Return ((timestamp r, is_key_frame) :: pts_keyFrame_pair)
      else Throw demux_error
  end.

(** The comparator of the [std::sort] call orders pairs by timestamp alone;
    [pts_le a b] is "not [b.first < a.first]".  [std::sort] promises a
    sorted permutation and leaves the order of pairs with equal timestamps
    open; a merge sort stands for it.  With pairwise different timestamps
    there is one sorted permutation only ([sort_by_pts_unique]); a
    statement that depends on where the pairs of one timestamp end up is
    made for such streams. *)
Definition pts_le (a b : Z * bool) : Prop := a.1 <= b.1.

#[global] Instance pts_le_dec : RelDecision pts_le := fun a b => decide (a.1 <= b.1).

Definition sort_by_pts (pairs : list (Z * bool)) : list (Z * bool) :=
  merge_sort pts_le pairs.

Record index_state : Type := IndexState {
  gop_start_idx : list Z;
  frame2pts : gmap Z Z;
  pts2frame : gmap Z Z
}.

(** The body of the [for] loop over the sorted pairs. *)
Definition visit (isVFR : bool) (current_frame_idx : Z) (entry : Z * bool)
    (st : index_state) : index_state :=
  let current_timestamp := entry.1 in
  let isKeyFrame := entry.2 in
  let st1 :=
    if isVFR then
      IndexState (gop_start_idx st)
                 (<[current_frame_idx := current_timestamp]> (frame2pts st))
                 (<[current_timestamp := current_frame_idx]> (pts2frame st))
    else st in
  if isKeyFrame then
    IndexState (gop_start_idx st1 ++ [current_frame_idx]) (frame2pts st1) (pts2frame st1)
  else st1.

Fixpoint walk (isVFR : bool) (pairs : list (Z * bool)) (current_frame_idx : Z)
    (st : index_state) : Z * index_state :=
  match pairs with
  | [] => (current_frame_idx, st)
  | entry :: pairs' =>
      walk isVFR pairs' (current_frame_idx + 1) (visit isVFR current_frame_idx entry st)
  end.

(** [parse_gop_start_idx]; the two maps are in-out parameters, returned
    beside the boundary table. *)
Definition parse_gop_start_idx (demuxer : FFmpegDemuxer)
    (frame2pts0 : gmap Z Z) (pts2frame0 : gmap Z Z) (isVFR : bool)
  : outcome (list Z * gmap Z Z * gmap Z Z) :=
  pts_keyFrame_pair ← demux_pass (GetVideoCodec demuxer) (packets demuxer);
  let sorted := sort_by_pts pts_keyFrame_pair in
  let '(current_frame_idx, st) := walk isVFR sorted 0 (IndexState [] frame2pts0 pts2frame0) in
  let gop_start_idx := gop_start_idx st ++ [current_frame_idx] in
  if decide (Z.of_nat (length gop_start_idx) <= 0) then Throw empty_video
  else Return (gop_start_idx, frame2pts st, pts2frame st).

Definition end_frame_behind (last_boundary last_id : Z) : exception :=
  Exception std_out_of_range "[ERROR] End frame of last GOP must be behind the frame_ids"
    [last_boundary; last_id].

Definition no_gop_for_frame (frame_id next_gop_start : Z) : exception :=
  Exception std_out_of_range "[ERROR] Can not find a gop for frame" [frame_id; next_gop_start].

(** The [for (iter = begin; iter != end;)] loop of [parse_gop_length], with
    [iter] an offset into [sorted_frame_ids].  A run that ends visits
    pairwise different offsets, so at most [length sorted_frame_ids] of
    them: [None] stands for a loop that does not end. *)
Fixpoint parse_gop_length_loop (fuel : nat) (gop_start_id_list sorted_frame_ids : list Z)
    (iter : Z) (gop_length first_frame_ids : list Z)
  : option (outcome (list Z * list Z)) :=
  if decide (iter = Z.of_nat (length sorted_frame_ids)) then
    Some (Return (gop_length, first_frame_ids))
  else
    match fuel with
    | O => None
    | S fuel' =>
        match at_index sorted_frame_ids iter with
        | Return frame_id =>
            let next_key_it := upper_bound gop_start_id_list frame_id in
            match at_index gop_start_id_list next_key_it with
            | Return next_key =>
                if decide (next_key_it = 0) then
                  Some (Throw (no_gop_for_frame frame_id next_key))
                else
                  match at_index gop_start_id_list (next_key_it - 1) with
                  | Return prev_key =>
                      parse_gop_length_loop fuel' gop_start_id_list sorted_frame_ids
                        (lower_bound sorted_frame_ids next_key)
                        (gop_length ++ [next_key - prev_key])
                        (first_frame_ids ++ [prev_key])
                  | Throw e => Some (Throw e)
                  | Undefined => Some Undefined
                  end
            | Throw e => Some (Throw e)
            | Undefined => Some Undefined
            end
        | Throw e => Some (Throw e)
        | Undefined => Some Undefined
        end
    end.

(** [parse_gop_length]: the result pairs the returned [gop_length] with the
    out-parameter [first_frame_ids]. *)
Definition parse_gop_length (gop_start_id_list sorted_frame_ids first_frame_ids : list Z)
  : option (outcome (list Z * list Z)) :=
  match back sorted_frame_ids, back gop_start_id_list with
  | Return last_id, Return last_boundary =>
      if decide (last_id >= last_boundary) then
        Some (Throw (end_frame_behind last_boundary last_id))
      else
        parse_gop_length_loop (length sorted_frame_ids) gop_start_id_list sorted_frame_ids
          0 [] first_frame_ids
  | Throw e, _ | _, Throw e => Some (Throw e)
  | _, _ => Some Undefined
  end.

(** Frame [f] lies in the GOP number [k] of a boundary table: between the
    boundary [k] and the next one. *)
Definition in_gop (table : list Z) (k : nat) (f : Z) : Prop :=
  exists a b, table !! k = Some a /\ table !! S k = Some b /\ a <= f < b.

(** The indices the walk records, counting from [i], for a sequence of
    key-frame flags. *)
Fixpoint key_offsets (i : Z) (key_flags : list bool) : list Z :=
  match key_flags with
  | [] => []
  | isKeyFrame :: key_flags' =>
      (if isKeyFrame then [i] else []) ++ key_offsets (i + 1) key_flags'
  end.

(** Offset of the first key frame in presentation order. *)
Definition first_key_frame (sorted : list (Z * bool)) : option nat :=
  fst <$> list_find (fun p => p.2 = true) sorted.

End GopIndex.

(** ** Key-frame seek navigator (PyNvGopDemuxer.cpp) *)

Module GopDemuxer.
Import Classifier.

(** [getKeyFrameId]: both dereferences are unguarded in the source. *)
Definition getKeyFrameId (key_frame_ids : list Z) (frame_id : Z) : outcome Z :=
  let cur_key_it := lower_bound key_frame_ids frame_id in
  cur_key ← at_index key_frame_ids cur_key_it;
  if decide (cur_key = frame_id) then at_index key_frame_ids cur_key_it
  else at_index key_frame_ids (cur_key_it - 1).

(** Conversion of an [int64_t] to [int], as at the initialisation of
    [current_timestamp_to_seek] and at the assignment to [frame_id_out]. *)
Definition to_int32 (z : Z) : Z := (z + 2 ^ 31) `mod` 2 ^ 32 - 2 ^ 31.

(** What [FFmpegDemuxer::SeekWithTS] hands back through its result and its
    out-parameters. *)
Record seek_result : Type := SeekResult {
  seek_ret : bool;
  seek_pVideo : option packet;
  seek_nVideoBytes : Z;
  seek_timestamp_out : Z
}.

(** The caller-visible variables of [SeekGopFirstFrameNoMap] and the
    demultiplexer behind it. *)
Record seek_state (demuxer_state : Type) : Type := SeekState {
  current_frame_to_seek : Z;
  frame_id_out : Z;
  ppVideo : option packet;
  pnVideoBytes : Z;
  demuxer : demuxer_state
}.
Arguments SeekState {demuxer_state}.
Arguments current_frame_to_seek {demuxer_state}.
Arguments frame_id_out {demuxer_state}.
Arguments ppVideo {demuxer_state}.
Arguments pnVideoBytes {demuxer_state}.
Arguments demuxer {demuxer_state}.

Definition vfr_not_supported : exception :=
  Exception std_domain_error "[ERROR] VFR video is not supported for GOP seeking" [].

Section UnmappedSeek.

(** Modelled from the spec: the demultiplexer collaborator offers "a
    seek-to-timestamp call returning the packet at or after that
    timestamp", the codec-family identification and the variable frame
    rate flag; for constant-frame-rate streams the frame id is derivable
    from the timestamp.  Nothing is assumed about what the calls return:
    a seek reads and moves the demultiplexer's own state. *)
Variable demuxer_state : Type.
Variable IsVFRV2 : bool.
Variable GetVideoCodec : AVCodecID.
Variable TsFromFrameNumber : Z -> Z.
Variable FrameNumFromTs : Z -> Z.
Variable SeekWithTS : demuxer_state -> Z -> seek_result * demuxer_state.

(** The packet handed back is a GOP start for the flag-less predicate and
    its frame id is not past the target. *)
Definition accepted (frame_id_to_seek : Z) (st : seek_state demuxer_state) : Prop :=
  (exists pVideo, ppVideo st = Some pVideo /\
                  hasKeyFrameNalType GetVideoCodec (Some pVideo) = Return true) /\
  frame_id_out st <= frame_id_to_seek.

(** The [while (!found_key_frame && current_frame_to_seek >= 0)] loop;
    [None] when the iterations allowed by [fuel] do not end it. *)
Fixpoint seek_loop (fuel : nat) (frame_id_to_seek : Z) (found_key_frame : bool)
    (st : seek_state demuxer_state) : option (outcome (bool * seek_state demuxer_state)) :=
  if negb found_key_frame && bool_decide (current_frame_to_seek st >= 0) then
    match fuel with
    | O => None
    | S fuel' =>
        let current_timestamp_to_seek :=
          to_int32 (TsFromFrameNumber (current_frame_to_seek st)) in
        let '(r, d) := SeekWithTS (demuxer st) current_timestamp_to_seek in
        let st1 := SeekState (current_frame_to_seek st) (frame_id_out st)
                             (seek_pVideo r) (seek_nVideoBytes r) d in
        if negb (seek_ret r) then Some (Return (false, st1))
        else
          let st2 := SeekState (current_frame_to_seek st1)
                               (to_int32 (FrameNumFromTs (seek_timestamp_out r)))
                               (ppVideo st1) (pnVideoBytes st1) (demuxer st1) in
          match ppVideo st2 with
          | None => Some (Return (false, st2))
          | Some pVideo =>
              match hasKeyFrameNalType GetVideoCodec (Some pVideo) with
              | Return true =>
                  if decide (frame_id_out st2 > frame_id_to_seek) then
                    seek_loop fuel' frame_id_to_seek false
                      (SeekState (current_frame_to_seek st2 - 1) (frame_id_out st2)
                                 (ppVideo st2) (pnVideoBytes st2) (demuxer st2))
                  else seek_loop fuel' frame_id_to_seek true st2
              | Return false =>
                  let st3 := SeekState (frame_id_out st2 - 1) (frame_id_out st2)
                                       (ppVideo st2) (pnVideoBytes st2) (demuxer st2) in
                  if decide (current_frame_to_seek st3 < 0) then Some (Return (false, st3))
                  else seek_loop fuel' frame_id_to_seek false st3
              | Throw e => Some (Throw e)
              | Undefined => Some Undefined
              end
          end
    end
  else Some (Return (found_key_frame, st)).

(** [SeekGopFirstFrameNoMap]: [ppVideo0], [pnVideoBytes0] and
    [frame_id_out0] are what the caller's variables hold at the call. *)
Definition SeekGopFirstFrameNoMap (fuel : nat) (d : demuxer_state)
    (ppVideo0 : option packet) (pnVideoBytes0 : Z) (frame_id_to_seek : Z) (frame_id_out0 : Z)
  : option (outcome (bool * seek_state demuxer_state)) :=
  if IsVFRV2 then Some (Throw vfr_not_supported)
  else seek_loop fuel frame_id_to_seek false
         (SeekState frame_id_to_seek frame_id_out0 ppVideo0 pnVideoBytes0 d).

End UnmappedSeek.

End GopDemuxer.

(** ** The LFUCache template (GopDecoderUtils.hpp)

    [LFUCache] is not embedded.  The eviction branch of [put] ends in
    [return freqLists[minFreq].pop_front();], and [std::list::pop_front]
    returns [void]: a [return] with a [void] operand in a function that
    returns [Value] is ill-formed, so [put] cannot be instantiated for any
    [Key] and [Value], no cache ever holds an entry, and the template is
    used nowhere in the sources.  There is no behaviour of [put] to give
    a definition to. *)

(** ** The single-worker task runner (ThreadPool.hpp) *)

Module Runner.

(** A queued task, as far as the runner can tell them apart: it returns,
    throws something derived from [std::exception], or throws anything
    else. *)
Inductive task : Type :=
  | task_returns
  | task_throws_std (e : exception)
  | task_throws_other (e : exception).

(** Where the worker thread stands in [threadLoop]. *)
Inductive worker_phase : Type :=
  | waiting
  | executing (t : task)
  | finishing
  | exited.

Record ThreadRunner : Type := Runner {
  tasks : list task;
  stopFlag : bool;
  busy : bool;
  hasException : bool;
  exceptionPtr : option exception;
  worker : worker_phase
}.

(** [ThreadRunner()] *)
Definition new : ThreadRunner := Runner [] false false false None waiting.

(** [start(f)] *)
Definition start (f : task) (s : ThreadRunner) : ThreadRunner :=
  Runner (tasks s ++ [f]) (stopFlag s) (busy s) (hasException s) (exceptionPtr s) (worker s).

Definition unknown_task_failure : exception :=
  Exception std_runtime_error "Thread task failed with unknown exception" [].

(** [join()]: [None] while the wait on [cvFinished] cannot be left. *)
Definition join (s : ThreadRunner) : option (outcome unit * ThreadRunner) :=
  if bool_decide (tasks s = []) && negb (busy s) then
    if hasException s then
      let ptr := exceptionPtr s in
      let s' := Runner (tasks s) (stopFlag s) (busy s) false None (worker s) in
      match ptr with
      | Some e => Some (Throw e, s')
      | None => Some (Throw unknown_task_failure, s')
      end
    else Some (Return (), s)
  else None.

(** [force_join()] before its wait: the queue is emptied. *)
Definition force_join_clear (s : ThreadRunner) : ThreadRunner :=
  Runner [] (stopFlag s) (busy s) (hasException s) (exceptionPtr s) (worker s).

(** [force_join()] after its wait. *)
Definition force_join_finish (s : ThreadRunner) : option ThreadRunner :=
  if busy s then None
  else Some (Runner (tasks s) (stopFlag s) (busy s) false None (worker s)).

(** The first critical section of [threadLoop]. *)
Definition worker_take (s : ThreadRunner) : option ThreadRunner :=
  match worker s with
  | waiting =>
      match tasks s with
      | [] => if stopFlag s
              then Some (Runner [] (stopFlag s) (busy s) (hasException s) (exceptionPtr s) exited)
              else None
      | t :: rest =>
          Some (Runner rest (stopFlag s) true (hasException s) (exceptionPtr s) (executing t))
      end
  | _ => None
  end.

(** The [try { task(); } catch ... ] block. *)
Definition worker_execute (s : ThreadRunner) : option ThreadRunner :=
  match worker s with
  | executing t =>
      match t with
      | task_returns =>
          Some (Runner (tasks s) (stopFlag s) (busy s) (hasException s) (exceptionPtr s) finishing)
      | task_throws_std e =>
          Some (Runner (tasks s) (stopFlag s) (busy s) true (Some e) finishing)
      | task_throws_other e =>
          Some (Runner (tasks s) (stopFlag s) (busy s) true (Some e) finishing)
      end
  | _ => None
  end.

(** The second critical section of [threadLoop]. *)
Definition worker_finish (s : ThreadRunner) : option ThreadRunner :=
  match worker s with
  | finishing =>
      Some (Runner (tasks s) (stopFlag s) false (hasException s) (exceptionPtr s) waiting)
  | _ => None
  end.

(** What the owner of the runner and its worker thread can do next. *)
Inductive event : Type :=
  | ev_start (f : task)
  | ev_join
  | ev_force_join_clear
  | ev_force_join_finish
  | ev_take
  | ev_execute
  | ev_finish.

(** One step of the interleaving; a [join] that throws reports its
    exception. *)
Definition step (s : ThreadRunner) (ev : event) : option (option exception * ThreadRunner) :=
  match ev with
  | ev_start f => Some (None, start f s)
  | ev_join =>
      match join s with
      | Some (Throw e, s') => Some (Some e, s')
      | Some (_, s') => Some (None, s')
      | None => None
      end
  | ev_force_join_clear => Some (None, force_join_clear s)
  | ev_force_join_finish => pair None <$> force_join_finish s
  | ev_take => pair None <$> worker_take s
  | ev_execute => pair None <$> worker_execute s
  | ev_finish => pair None <$> worker_finish s
  end.

(** A run of the interleaving, with the exceptions its joins threw. *)
Fixpoint run (s : ThreadRunner) (evs : list event) : option (list exception * ThreadRunner) :=
  match evs with
  | [] => Some ([], s)
  | ev :: evs' =>
      match step s ev with
      | Some (raised, s') =>
          match run s' evs' with
          | Some (thrown, s'') => Some (option_list raised ++ thrown, s'')
          | None => None
          end
      | None => None
      end
  end.

Definition fails (t : task) : bool :=
  match t with task_returns => false | _ => true end.

Definition starts_failing_task (ev : event) : bool :=
  match ev with ev_start f => fails f | _ => false end.

(** No task that fails is queued or about to run. *)
Definition no_failing_task (s : ThreadRunner) : Prop :=
  Forall (fun t => fails t = false) (tasks s) /\
  match worker s with executing t => fails t = false | _ => True end.

Definition quiescent (s : ThreadRunner) : Prop := tasks s = [] /\ busy s = false.

(** The failure a task raises. *)
Definition raises (t : task) (e : exception) : Prop :=
  t = task_throws_std e \/ t = task_throws_other e.

(** [busy] is set exactly while the worker holds a task. *)
Definition coherent (s : ThreadRunner) : Prop :=
  match worker s with
  | executing _ | finishing => busy s = true
  | waiting | exited => busy s = false
  end.

Definition cleared (s : ThreadRunner) : Prop :=
  hasException s = false /\ exceptionPtr s = None.

(** The failure state is cleared and no failing task is around. *)
Definition calm (s : ThreadRunner) : Prop := cleared s /\ no_failing_task s.

End Runner.

(** ** The asynchronous decode hand-off (PyNvSampleReader.cpp) *)

Module SampleReader.

Section AsyncDecode.

(** Decoded pixel data is opaque here. *)
Variable RGBFrame : Type.

(** Modelled from the spec: the cached readers and the hardware decoder
    behind [run_rgb_out] are external collaborators; for a request that
    passed the argument checks they deliver the decoded frames or fail. *)
Variable decode_frames : list string -> list Z -> bool -> exception + list RGBFrame.

Variable num_of_file : Z.

Record DecodeResult : Type := Result {
  decoded_frames : list RGBFrame;
  file_path_list : list string;
  frame_id_list : list Z;
  as_bgr : bool;
  is_ready : bool;
  exception_ptr : option exception
}.

Definition size_mismatch (n_files n_ids : Z) : exception :=
  Exception std_invalid_argument "filepaths.size() must equal frame_ids.size()"
    [n_files; n_ids].

Definition too_many_files (n_files : Z) : exception :=
  Exception std_invalid_argument "Number of files to decode exceeds num_of_file"
    [n_files; num_of_file].

Definition size_t_of_int (z : Z) : Z := z `mod` 2 ^ 64.

(** [run_rgb_out]: the two argument checks, then the decode. *)
Definition run_rgb_out (filepaths : list string) (frame_ids : list Z) (bgr : bool)
  : exception + list RGBFrame :=
  if decide (length filepaths <> length frame_ids) then
    inl (size_mismatch (Z.of_nat (length filepaths)) (Z.of_nat (length frame_ids)))
  else if decide (Z.of_nat (length filepaths) > size_t_of_int num_of_file) then
    inl (too_many_files (Z.of_nat (length filepaths)))
  else decode_frames filepaths frame_ids bgr.

(** The task [DecodeN12ToRGBAsync] hands to the worker: the result it
    pushes into [decode_result_queue]. *)
Definition async_decode_task (filepaths : list string) (frame_ids : list Z) (bgr : bool)
  : DecodeResult :=
  match run_rgb_out filepaths frame_ids bgr with
  | inr frames => Result frames filepaths frame_ids bgr true None
  | inl e => Result [] filepaths frame_ids bgr true (Some e)
  end.

(** The [for] loop of [validate_request], from index [i], with [n]
    iterations to go; the vectors are indexed without a bounds check. *)
Fixpoint validate_from (n : nat) (i : Z) (result : DecodeResult)
    (filepaths : list string) (frame_ids : list Z) : outcome bool :=
  match n with
  | O => Return true
  | S n' =>
      result_path ← at_index (file_path_list result) i;
      path ← at_index filepaths i;
      if decide (result_path <> path) then Return false
      else
        result_id ← at_index (frame_id_list result) i;
        id ← at_index frame_ids i;
        if decide (result_id <> id) then Return false
        else validate_from n' (i + 1) result filepaths frame_ids
  end.

Definition validate_request (result : DecodeResult)
    (filepaths : list string) (frame_ids : list Z) (bgr : bool) : outcome bool :=
  if decide (length (file_path_list result) <> length filepaths \/
             length (frame_id_list result) <> length frame_ids) then Return false
  else if decide (as_bgr result <> bgr) then Return false
  else validate_from (length filepaths) 0 result filepaths frame_ids.

Record async_state : Type := AsyncState {
  has_pending_task : bool;
  decode_result_queue : list DecodeResult
}.

Definition nothing_pending : exception :=
  Exception std_runtime_error
    "DecodeN12ToRGBAsyncGetBuffer: No pending decode task and buffer is empty." [].

Definition result_not_ready : exception :=
  Exception std_runtime_error
    "DecodeN12ToRGBAsyncGetBuffer: Internal error - result not ready when popped from queue" [].

(** The loop of [generate_request_key], from index [i], with [n]
    iterations to go: it appends [filepaths[i]], a colon and
    [frame_ids[i]] to the stream, and a comma unless [i] is the last
    index.  Both vectors are indexed without a bounds check; [pretty]
    writes an [int] in decimal, as [operator<<] does. *)
Fixpoint request_key_from (n : nat) (i : Z) (filepaths : list string)
    (frame_ids : list Z) (oss : string) : outcome string :=
  match n with
  | O => Return oss
  | S n' =>
      path ← at_index filepaths i;
      id ← at_index frame_ids i;
      let oss1 := oss +:+ path +:+ ":" +:+ pretty id in
      let oss2 :=
        if decide (i < Z.of_nat (length filepaths) - 1) then oss1 +:+ "," else oss1 in
      request_key_from n' (i + 1) filepaths frame_ids oss2
  end.

(** [generate_request_key]; a [bool] is written as [1] or [0]. *)
Definition generate_request_key (filepaths : list string) (frame_ids : list Z)
    (bgr : bool) : outcome string :=
  request_key_from (length filepaths) 0 filepaths frame_ids
    ((if bgr then "1" else "0") +:+ ":").

(** The mismatch error, with the keys of the request and of the buffered
    result in its message. *)
Definition request_mismatch (expected got : string) : exception :=
  Exception std_runtime_error
    ("DecodeN12ToRGBAsyncGetBuffer: Request parameters do not match buffered result. " +:+
     "Expected: " +:+ expected +:+ ", Got: " +:+ got) [].

(** [DecodeN12ToRGBAsyncGetBuffer]: [None] while [pop_front] waits for the
    worker to push a result. *)
Definition DecodeN12ToRGBAsyncGetBuffer (s : async_state)
    (filepaths : list string) (frame_ids : list Z) (bgr : bool)
  : option (outcome (list RGBFrame) * async_state) :=
  if negb (has_pending_task s) && bool_decide (decode_result_queue s = []) then
    Some (Throw nothing_pending, s)
  else
    match decode_result_queue s with
    | [] => None
    | result :: queue' =>
        let s' := AsyncState (has_pending_task s) queue' in
        if negb (is_ready result) then Some (Throw result_not_ready, s')
        else
          match exception_ptr result with
          | Some e => Some (Throw e, s')
          | None =>
              match validate_request result filepaths frame_ids bgr with
              | Return true => Some (Return (decoded_frames result), s')
              | Return false =>
                  Some (expected ← generate_request_key filepaths frame_ids bgr;
                        got ← generate_request_key (file_path_list result)
                                (frame_id_list result) (as_bgr result);
                        Throw (request_mismatch expected got), s')
              | Throw e => Some (Throw e, s')
              | Undefined => Some (Undefined, s')
              end
          end
    end.

(** What the worker may have pushed: a result built by the task of some
    submitted request. *)
Definition buffered (result : DecodeResult) : Prop :=
  exists filepaths frame_ids bgr, result = async_decode_task filepaths frame_ids bgr.

End AsyncDecode.

Arguments Result {RGBFrame}.
Arguments decoded_frames {RGBFrame}.
Arguments file_path_list {RGBFrame}.
Arguments frame_id_list {RGBFrame}.
Arguments as_bgr {RGBFrame}.
Arguments is_ready {RGBFrame}.
Arguments exception_ptr {RGBFrame}.
Arguments AsyncState {RGBFrame}.
Arguments has_pending_task {RGBFrame}.
Arguments decode_result_queue {RGBFrame}.
Arguments validate_from {RGBFrame}.
Arguments validate_request {RGBFrame}.
Arguments DecodeN12ToRGBAsyncGetBuffer {RGBFrame}.

End SampleReader.

(** ** Sample streams *)

Module Samples.
Import Classifier GopIndex.

(** An H.264 packet that opens with a sequence parameter set (type 7) after
    a four-byte start code, and one that opens with a non-IDR slice. *)
Definition sps_packet : packet := [Byte.x00; Byte.x00; Byte.x00; Byte.x01; Byte.x67].
Definition slice_packet : packet := [Byte.x00; Byte.x00; Byte.x00; Byte.x01; Byte.x41].

Definition key_frame (pts : Z) : demux_result :=
  DemuxResult true (Some sps_packet) 5 pts AV_PKT_FLAG_KEY.
Definition plain_frame (pts : Z) : demux_result :=
  DemuxResult true (Some slice_packet) 5 pts 0.

(** Ten frames at a constant rate, key frames at 0, 4 and 8. *)
Definition ten_frames : FFmpegDemuxer :=
  {| GetVideoCodec := AV_CODEC_ID_H264;
     packets := [key_frame 0; plain_frame 1; plain_frame 2; plain_frame 3;
                 key_frame 4; plain_frame 5; plain_frame 6; plain_frame 7;
                 key_frame 8; plain_frame 9] |}.

(** The same ten frames as the demultiplexer delivers them when frame 2
    is decoded before frame 1. *)
Definition reordered_frames : FFmpegDemuxer :=
  {| GetVideoCodec := AV_CODEC_ID_H264;
     packets := [key_frame 0; plain_frame 2; plain_frame 1; plain_frame 3;
                 key_frame 4; plain_frame 5; plain_frame 6; plain_frame 7;
                 key_frame 8; plain_frame 9] |}.

(** Two frames, none of them a key frame. *)
Definition no_key_frame : FFmpegDemuxer :=
  {| GetVideoCodec := AV_CODEC_ID_H264; packets := [plain_frame 0; plain_frame 1] |}.

(** Two frames, the second one the first key frame. *)
Definition late_key_frame : FFmpegDemuxer :=
  {| GetVideoCodec := AV_CODEC_ID_H264; packets := [plain_frame 0; key_frame 1] |}.

(** A constant-frame-rate file for the unmapped seek: 1000 ticks per frame,
    a key frame every fourth frame, and a seek that lands on the key frame
    at or before the timestamp asked for. *)
Definition ticks_of_frame (frame : Z) : Z := frame * 1000.
Definition frame_of_ticks (ts : Z) : Z := ts `div` 1000.
Definition seek_to_gop_start (d : unit) (ts : Z) : GopDemuxer.seek_result * unit :=
  (GopDemuxer.SeekResult true (Some sps_packet) 5 (ts `div` 4000 * 4000), d).

(** A task that fails with a standard exception. *)
Definition decode_failed : exception := Exception std_runtime_error "decode failed" [].

(** What a task throws that is not derived from [std::exception]. *)
Definition foreign_failure : exception := Exception foreign_exception "error code" [7].

(** A decoder stub for the asynchronous hand-off: a frame is named by the
    frame id it was decoded from. *)
Definition decode_ids (filepaths : list string) (frame_ids : list Z) (bgr : bool)
  : exception + list Z := inr frame_ids.

(** The result buffered for the request (["A"; "B"], [0; 10], RGB). *)
Definition buffered_result : SampleReader.DecodeResult Z :=
  SampleReader.async_decode_task Z decode_ids 2 ["A"; "B"]%string [0; 10] false.

End Samples.

(** ** Further notions for the GOP index *)

Module GopIndexSpec.
Import Classifier GopIndex.

(** [first] and [len] describe a GOP of the table: two consecutive
    boundaries [first] and [first + len]. *)
Definition gop_of (table : list Z) (first len : Z) : Prop :=
  exists k : nat, table !! k = Some first /\ table !! S k = Some (first + len).

(** A packet read that leaves every header byte the classifier looks at
    inside the packet. *)
Definition readable (r : demux_result) : Prop :=
  match pVideo r with
  | Some p => (5 <= length p)%nat
  | None => True
  end.

(** A stream whose second call fails after delivering bytes. *)
Definition broken_stream : FFmpegDemuxer :=
  {| GetVideoCodec := AV_CODEC_ID_H264;
     packets := [DemuxResult true (Some [Byte.x00; Byte.x00; Byte.x00; Byte.x01; Byte.x41]) 5 0 0;
                 DemuxResult false None 5 1 0] |}.

End GopIndexSpec.

(** ** More of the seek navigator (PyNvGopDemuxer.cpp) *)

Module GopDemuxerMore.
Import Classifier GopIndex GopDemuxer.

(** [AV_PKT_FLAG_DISPOSABLE] of libavcodec's packet.h. *)
Definition AV_PKT_FLAG_DISPOSABLE : Z := 16.

Definition no_gop_before (frame_id next_gop_start : Z) : exception :=
  Exception std_invalid_argument "[ERROR] Can not find a gop for frame"
    [frame_id; next_gop_start].

(** [getNextKeyFrameId] *)
Definition getNextKeyFrameId (key_frame_ids : list Z) (frame_id : Z) : outcome Z :=
  let next_key_it := upper_bound key_frame_ids frame_id in
  if decide (next_key_it = 0) then
    next_key ← at_index key_frame_ids next_key_it;
    Throw (no_gop_before frame_id next_key)
  else if decide (next_key_it = Z.of_nat (length key_frame_ids)) then back key_frame_ids
  else at_index key_frame_ids next_key_it.

Definition is_h264 (codec_id : AVCodecID) : bool :=
  match codec_id with AV_CODEC_ID_H264 => true | _ => false end.

(** [PyNvGopDemuxer::Demux] on what the wrapped demultiplexer hands back
    ([r]).  [frame_id] is the caller's variable behind the reference,
    [pbRef] is [None] for a null pointer and else what the caller's [bool]
    holds.  The result is the returned flag with the two variables after the
    call. *)
Definition Demux (IsVFRV2 : bool) (codec_id : AVCodecID) (pts2frame : gmap Z Z)
    (FrameNumFromTs : Z -> Z) (r : demux_result) (frame_id : Z) (pbRef : option bool)
  : outcome (bool * Z * option bool) :=
  if negb (ret r) then Return (false, frame_id, pbRef)
  else
    match (if IsVFRV2 then pts2frame !! timestamp r
           else Some (to_int32 (FrameNumFromTs (timestamp r)))) with
    | None => Return (false, frame_id, pbRef)
    | Some frame_id' =>
        let pbRef1 :=
          match pbRef with
          | Some _ =>
              Some (if decide (Z.land (flags r) AV_PKT_FLAG_DISPOSABLE <> 0) then false
                    else true)
          | None => None
          end in
        match pbRef1 with
        | Some ref =>
            if bool_decide (nVideoBytes r <> 0) && is_h264 codec_id then
              match pVideo r with
              | Some p =>
                  b ← nal_header_byte p;
                  let nal_ref_idc := Z.shiftr b 5 in
                  let nal_unit_type := Z.land b 31 in
                  if decide (nal_ref_idc = 0 /\ nal_unit_type = 1)
                  then Return (true, frame_id', Some false)
                  else Return (true, frame_id', Some ref)
              | None => Undefined
              end
            else Return (true, frame_id', Some ref)
        | None => Return (true, frame_id', None)
        end
    end.

Section MappedSeek.

(** The demultiplexer collaborator, as for the unmapped seek, and the two
    maps of the [PyNvGopDemuxer]. *)
Variable demuxer_state : Type.
Variable IsVFRV2 : bool.
Variable TsFromFrameNumber : Z -> Z.
Variable FrameNumFromTs : Z -> Z.
Variable SeekWithTS : demuxer_state -> Z -> seek_result * demuxer_state.
Variable frame2pts : gmap Z Z.
Variable pts2frame : gmap Z Z.

(** The timestamp of a frame id: [frame2pts.at] for a variable frame rate,
    [None] when [at] throws. *)
Definition timestamp_of (frame_id : Z) : option Z :=
  if IsVFRV2 then frame2pts !! frame_id else Some (TsFromFrameNumber frame_id).

(** The [do { ... } while (condition == false)] loop of [Seek]; the state
    carries [frame_id_to_seek] as [current_frame_to_seek].  [None] when the
    iterations allowed by [fuel] do not end it. *)
Fixpoint seek_exact_loop (fuel : nat) (timestamp_keyframe : Z)
    (st : seek_state demuxer_state) : option (option Z * seek_state demuxer_state) :=
  match fuel with
  | O => None
  | S fuel' =>
      match timestamp_of (current_frame_to_seek st) with
      | None => Some (None, st)
      | Some timestamp_to_seek =>
          let '(r, d) := SeekWithTS (demuxer st) timestamp_to_seek in
          let condition := bool_decide (seek_timestamp_out r = timestamp_keyframe) in
          let st1 := SeekState (current_frame_to_seek st + 1) (frame_id_out st)
                               (seek_pVideo r) (seek_nVideoBytes r) d in
          if negb (seek_ret r) then Some (None, st1)
          else if condition then Some (Some (seek_timestamp_out r), st1)
          else seek_exact_loop fuel' timestamp_keyframe st1
      end
  end.

(** [PyNvGopDemuxer::Seek]: the returned flag and the caller's variables
    after the call. *)
Definition Seek (fuel : nat) (d : demuxer_state) (ppVideo0 : option packet)
    (pnVideoBytes0 : Z) (frame_id_to_seek : Z) (frame_id_out0 : Z)
  : option (bool * seek_state demuxer_state) :=
  let st0 := SeekState frame_id_to_seek frame_id_out0 ppVideo0 pnVideoBytes0 d in
  match timestamp_of frame_id_to_seek with
  | None => Some (false, st0)
  | Some timestamp_keyframe =>
      match seek_exact_loop fuel timestamp_keyframe st0 with
      | None => None
      | Some (None, st) => Some (false, st)
      | Some (Some timestamp_out, st) =>
          match (if IsVFRV2 then pts2frame !! timestamp_out
                 else Some (to_int32 (FrameNumFromTs timestamp_out))) with
          | None => Some (false, st)
          | Some frame_id =>
              Some (true, SeekState (current_frame_to_seek st) frame_id
                                    (ppVideo st) (pnVideoBytes st) (demuxer st))
          end
      end
  end.

End MappedSeek.

(** A seek that lands one GOP too early unless asked for the frame after
    the target: the case the retry of [Seek] is there for. *)
Definition seek_one_short (d : unit) (ts : Z) : seek_result * unit :=
  (SeekResult true (Some [Byte.x00; Byte.x00; Byte.x00; Byte.x01; Byte.x67]) 5
     ((ts - 1000) `div` 4000 * 4000), d).

End GopDemuxerMore.

(** ** [hasDuplicates] (GopDecoderUtils.hpp) *)

Module Duplicates.

(** The [for] loop of [hasDuplicates] with the set [seen] built so far. *)
Fixpoint hasDuplicates_from (seen : gset Z) (vec : list Z) : bool :=
  match vec with
  | [] => false
  | num :: vec' =>
      if decide (num ∈ seen) then true
      else hasDuplicates_from ({[num]} ∪ seen) vec'
  end.

Definition hasDuplicates (vec : list Z) : bool := hasDuplicates_from ∅ vec.

End Duplicates.

(** ** Runs of the task runner: what was started, taken and raised *)

Module RunnerSpec.
Import Runner.

(** The tasks handed to [start], in the order of the calls. *)
Fixpoint started (evs : list event) : list task :=
  match evs with
  | [] => []
  | ev_start f :: evs' => f :: started evs'
  | _ :: evs' => started evs'
  end.

(** The task the worker takes from the queue at this step, if any. *)
Definition taken_at (s : ThreadRunner) (ev : event) : list task :=
  match ev, worker s, tasks s with
  | ev_take, waiting, t :: _ => [t]
  | _, _, _ => []
  end.

(** A run of the interleaving, with the tasks the worker took, in the order
    it took them. *)
Fixpoint run_taken (s : ThreadRunner) (evs : list event)
  : option (list task * ThreadRunner) :=
  match evs with
  | [] => Some ([], s)
  | ev :: evs' =>
      match step s ev with
      | Some (_, s') =>
          match run_taken s' evs' with
          | Some (taken, s'') => Some (taken_at s ev ++ taken, s'')
          | None => None
          end
      | None => None
      end
  end.

(** The failure raised by the last task of the list that fails. *)
Fixpoint last_failure (ts : list task) : option exception :=
  match ts with
  | [] => None
  | t :: ts' =>
      match last_failure ts' with
      | Some e => Some e
      | None =>
          match t with
          | task_returns => None
          | task_throws_std e | task_throws_other e => Some e
          end
      end
  end.

(** The worker's own steps. *)
Definition worker_step (ev : event) : bool :=
  match ev with
  | ev_take | ev_execute | ev_finish => true
  | _ => false
  end.

(** Calls of [start] and the worker's own steps. *)
Definition start_or_worker_step (ev : event) : bool :=
  match ev with
  | ev_start _ => true
  | _ => worker_step ev
  end.

Definition in_flight (s : ThreadRunner) : list task :=
  match worker s with
  | executing t => [t]
  | _ => []
  end.

(** The failure state mirrors the tasks executed so far, and the tasks
    started are those, the one in execution and the ones queued. *)
Definition mirrors (all : list task) (s : ThreadRunner) : Prop :=
  coherent s /\
  exists done,
    all = done ++ in_flight s ++ tasks s /\
    exceptionPtr s = last_failure done /\
    hasException s = bool_decide (is_Some (last_failure done)).

End RunnerSpec.

(** ** The asynchronous pipeline around the hand-off (PyNvSampleReader.cpp) *)

Module AsyncPipeline.
Import SampleReader.

Section Pipeline.

Variable RGBFrame : Type.
Variable decode_frames : list string -> list Z -> bool -> exception + list RGBFrame.
Variable num_of_file : Z.

Definition request : Type := (list string * list Z * bool)%type.

(** Where the task handed to [decode_worker] stands: no task, decoding (its
    result not yet pushed), or result pushed and [has_pending_task] still to
    be reset. *)
Inductive task_phase : Type :=
  | idle
  | decoding (req : request)
  | publishing.

Record pipeline : Type := Pipeline {
  async : async_state RGBFrame;
  phase : task_phase
}.

(** [PyNvSampleReader(...)]: [decode_result_queue(1)], [has_pending_task(false)]. *)
Definition fresh : pipeline := Pipeline (AsyncState false []) idle.

(** Modelled from the spec: [decode_result_queue] is the "single-slot
    handoff" of the design, a queue of capacity one ("Buffer size = 1" at
    its construction) whose [push_back] "will block if queue is full" and
    whose [pop_front] blocks until a result is pushed.  The task pushes its
    result; [None] while the push has to wait. *)
Definition task_push (p : pipeline) : option pipeline :=
  match phase p with
  | decoding (filepaths, frame_ids, bgr) =>
      if decide (length (decode_result_queue (async p)) < 1)%nat then
        Some (Pipeline
                (AsyncState (has_pending_task (async p))
                   (decode_result_queue (async p) ++
                    [async_decode_task RGBFrame decode_frames num_of_file
                       filepaths frame_ids bgr]))
                publishing)
      else None
  | _ => None
  end.

(** The task marks itself completed. *)
Definition task_done (p : pipeline) : option pipeline :=
  match phase p with
  | publishing => Some (Pipeline (AsyncState false (decode_result_queue (async p))) idle)
  | _ => None
  end.

(** [decode_worker.join()]: the caller waits until the task, if any, has
    run to its end. *)
Definition worker_join (p : pipeline) : option pipeline :=
  match phase p with
  | idle => Some p
  | decoding _ => p' ← task_push p; task_done p'
  | publishing => task_done p
  end.

Definition start_task (p : pipeline) (req : request) : pipeline :=
  Pipeline (AsyncState true (decode_result_queue (async p))) (decoding req).

(** [DecodeN12ToRGBAsync] *)
Definition DecodeN12ToRGBAsync (p : pipeline) (filepaths : list string)
    (frame_ids : list Z) (bgr : bool) : option pipeline :=
  if has_pending_task (async p) then
    p1 ← worker_join p;
    Some (start_task (Pipeline (AsyncState false []) (phase p1)) (filepaths, frame_ids, bgr))
  else Some (start_task p (filepaths, frame_ids, bgr)).

(** [DecodeN12ToRGBAsyncGetBuffer] with the worker beside it: when
    [pop_front] has to wait, it waits for the push of the task. *)
Definition retrieve (p : pipeline) (filepaths : list string) (frame_ids : list Z)
    (bgr : bool) : option (outcome (list RGBFrame) * pipeline) :=
  match DecodeN12ToRGBAsyncGetBuffer (async p) filepaths frame_ids bgr with
  | Some (r, a) => Some (r, Pipeline a (phase p))
  | None =>
      p' ← task_push p;
      match DecodeN12ToRGBAsyncGetBuffer (async p') filepaths frame_ids bgr with
      | Some (r, a) => Some (r, Pipeline a (phase p'))
      | None => None
      end
  end.

(** The binding's [catch (const std::exception& e)]: a standard exception
    is replaced by [std::runtime_error(e.what())], any other passes. *)
Definition as_runtime_error (e : exception) : exception :=
  match kind e with
  | foreign_exception => e
  | _ => Exception std_runtime_error (what e) (what_args e)
  end.

(** The body of the [DecodeN12ToRGB] binding: wait for a pending
    asynchronous task, empty the result buffer, decode. *)
Definition DecodeN12ToRGB (p : pipeline) (filepaths : list string) (frame_ids : list Z)
    (bgr : bool) : option (outcome (list RGBFrame) * pipeline) :=
  p1 ← (if has_pending_task (async p) then worker_join p else Some p);
  let p2 := Pipeline (AsyncState (has_pending_task (async p1)) []) (phase p1) in
  match run_rgb_out RGBFrame decode_frames num_of_file filepaths frame_ids bgr with
  | inr frames => Some (Return frames, p2)
  | inl e => Some (Throw (as_runtime_error e), p2)
  end.

(** What a retrieval of the result of a request has to deliver: the frames
    [run_rgb_out] decodes, or the failure it raises. *)
Definition decoded (filepaths : list string) (frame_ids : list Z) (bgr : bool)
  : outcome (list RGBFrame) :=
  match run_rgb_out RGBFrame decode_frames num_of_file filepaths frame_ids bgr with
  | inr frames => Return frames
  | inl e => Throw e
  end.

(** [has_pending_task] is set exactly while a task is on its way. *)
Definition in_step (p : pipeline) : Prop :=
  has_pending_task (async p) = true <-> phase p <> idle.

End Pipeline.

Arguments Pipeline {RGBFrame}.
Arguments async {RGBFrame}.
Arguments phase {RGBFrame}.

End AsyncPipeline.

(** ** One thread per frame (PyNvSampleReader.cpp) *)

Module Parallel.

Section ProcessFrames.

Variables T Reader : Type.
(** [T()], the value [std::vector<T> res(n)] is filled with. *)
Variable default : T.
Variable process_frame : Reader -> Z -> exception + T.

(** The locals the threads share: [res] and [eptr]. *)
Record join_state : Type := JoinState {
  res : list T;
  eptr : option exception
}.

(** The body of thread [i].  [None]: an exception that is no
    [std::exception] leaves the thread, which ends the program
    ([std::terminate]). *)
Definition thread_body (video_readers : list Reader) (frame_ids : list Z)
    (i : nat) (s : join_state) : option (outcome join_state) :=
  match at_index video_readers (Z.of_nat i), at_index frame_ids (Z.of_nat i) with
  | Return reader, Return id =>
      match process_frame reader id with
      | inr x => Some (Return (JoinState (<[i:=x]> (res s)) (eptr s)))
      | inl e =>
          match kind e with
          | foreign_exception => None
          | _ => Some (Return (JoinState (res s) (Some e)))
          end
      end
  | _, _ => Some Undefined
  end.

(** The threads, in the order in which they get to store their result. *)
Fixpoint run_threads (video_readers : list Reader) (frame_ids : list Z)
    (finished : list nat) (s : join_state) : option (outcome join_state) :=
  match finished with
  | [] => Some (Return s)
  | i :: rest =>
      match thread_body video_readers frame_ids i s with
      | Some (Return s') => run_threads video_readers frame_ids rest s'
      | other => other
      end
  end.

(** [process_frames_in_parallel]; [finished] lists the threads
    [0 .. filepaths.size() - 1] in the order in which they finish. *)
Definition process_frames_in_parallel (filepaths : list string) (frame_ids : list Z)
    (video_readers : list Reader) (finished : list nat) : option (outcome (list T)) :=
  match run_threads video_readers frame_ids finished
          (JoinState (replicate (length filepaths) default) None) with
  | Some (Return s) =>
      match eptr s with
      | Some e => Some (Throw e)
      | None => Some (Return (res s))
      end
  | Some (Throw e) => Some (Throw e)
  | Some Undefined => Some Undefined
  | None => None
  end.

(** Frame [i] of the request decodes to [x], or fails with [e]. *)
Definition decodes_to (video_readers : list Reader) (frame_ids : list Z)
    (i : nat) (x : T) : Prop :=
  exists reader id,
    video_readers !! i = Some reader /\ frame_ids !! i = Some id /\
    process_frame reader id = inr x.

Definition fails_with (video_readers : list Reader) (frame_ids : list Z)
    (i : nat) (e : exception) : Prop :=
  exists reader id,
    video_readers !! i = Some reader /\ frame_ids !! i = Some id /\
    process_frame reader id = inl e.

End ProcessFrames.

Arguments JoinState {T}.
Arguments res {T}.
Arguments eptr {T}.

End Parallel.

(** ** Theorems *)

(** *** Vectors, sorted vectors and their partition points *)

Lemma at_index_lookup {A} (v : list A) (n : nat) :
  at_index v (Z.of_nat n) = match v !! n with Some x => Return x | None => Undefined end.
Proof. unfold at_index. rewrite decide_True by lia. by rewrite Nat2Z.id. Qed.

Lemma at_index_negative {A} (v : list A) i : i < 0 -> at_index v i = Undefined.
Proof. intros. unfold at_index. by rewrite decide_False by lia. Qed.

Lemma sorted_lookup_lt (t : list Z) : forall (i j : nat) x y,
  StronglySorted Z.lt t -> t !! i = Some x -> t !! j = Some y -> (i < j)%nat -> x < y.
Proof.
  induction t as [|a t IH]; intros i j x y Hs Hi Hj Hij; [done|].
  apply StronglySorted_cons in Hs as [Hall Hs].
  destruct j as [|j]; [lia|]. destruct i as [|i]; simpl in *.
  - injection Hi as ->. rewrite Forall_forall in Hall.
    apply Hall. by eapply list_elem_of_lookup_2.
  - apply (IH i j); [done..|lia].
Qed.

Lemma sorted_lookup_le (t : list Z) (i j : nat) x y :
  StronglySorted Z.lt t -> t !! i = Some x -> t !! j = Some y -> (i <= j)%nat -> x <= y.
Proof.
  intros Hs Hi Hj Hij. destruct (decide (i = j)) as [->|Hne].
  - rewrite Hi in Hj. injection Hj as ->. lia.
  - pose proof (sorted_lookup_lt t i j x y Hs Hi Hj). lia.
Qed.

Lemma sorted_last_is_max (ids : list Z) x y :
  Sorted Z.le ids -> x ∈ ids -> last ids = Some y -> x <= y.
Proof.
  intros Hs%Sorted_StronglySorted Hx Hlast; [|apply _].
  apply last_Some in Hlast as [ids' ->].
  apply elem_of_app in Hx as [Hx|Hx%list_elem_of_singleton]; [|lia].
  eapply (StronglySorted_app_1_elem_of Z.le); [done|done|apply list_elem_of_here].
Qed.

(** The partition point, for any vector: an offset within the vector, with
    smaller elements before it and an element that is not smaller at it. *)
Lemma lower_bound_spec (v : list Z) value :
  exists n : nat,
    lower_bound v value = Z.of_nat n /\ (n <= length v)%nat /\
    (forall (i : nat) y, v !! i = Some y -> (i < n)%nat -> y < value) /\
    (forall y, v !! n = Some y -> value <= y).
Proof.
  induction v as [|x v (n&Hn&Hlen&Hlt&Hge)]; simpl.
  - exists 0%nat. split_and!; [done|done|intros; lia|done].
  - case_decide as Hx.
    + exists (S n). split_and!; [lia|simpl; lia| |done].
      intros [|i] y Hy Hi; simpl in Hy; [by simplify_eq|].
      apply (Hlt i); [done|lia].
    + exists 0%nat. split_and!; [done|simpl; lia|intros; lia|].
      simpl. intros y [= <-]. lia.
Qed.

Lemma upper_bound_spec (v : list Z) value :
  exists n : nat,
    upper_bound v value = Z.of_nat n /\ (n <= length v)%nat /\
    (forall (i : nat) y, v !! i = Some y -> (i < n)%nat -> y <= value) /\
    (forall y, v !! n = Some y -> value < y).
Proof.
  induction v as [|x v (n&Hn&Hlen&Hle&Hgt)]; simpl.
  - exists 0%nat. split_and!; [done|done|intros; lia|done].
  - case_decide as Hx.
    + exists 0%nat. split_and!; [done|simpl; lia|intros; lia|].
      simpl. intros y [= <-]. lia.
    + exists (S n). split_and!; [lia|simpl; lia| |done].
      intros [|i] y Hy Hi; simpl in Hy; [simplify_eq; lia|].
      apply (Hle i); [done|lia].
Qed.


Module ClassifierProofs.
Import Classifier.

Lemma if_bool_id (b : bool) : (if b then true else false) = b.
Proof. by destruct b. Qed.

(** The flagged predicate is the flag-less one followed by the flag test,
    whatever the flag-less one does (return, throw, read out of bounds). *)
Lemma iskeyFrame_via_hasKeyFrameNalType codec_id (p : packet) demux_flags :
  iskeyFrame codec_id (Some p) demux_flags =
  (bPS ← hasKeyFrameNalType codec_id (Some p); Return (key_flag_set demux_flags && bPS)).
Proof.
  unfold iskeyFrame, hasKeyFrameNalType, key_flag_set.
  destruct codec_id; simpl; try reflexivity.
  - destruct (nal_header_byte p); simpl; by rewrite ?if_bool_id.
  - destruct (nal_header_byte p); simpl; by rewrite ?if_bool_id.
  - destruct (byte_at p 0); simpl; by rewrite ?if_bool_id.
Qed.

Lemma key_flag_set_spec demux_flags :
  key_flag_set demux_flags = true <-> Z.land demux_flags AV_PKT_FLAG_KEY <> 0.
Proof.
  unfold key_flag_set. rewrite negb_true_iff, Z.eqb_neq. tauto.
Qed.

Lemma null_packet_is_no_key_frame codec_id demux_flags :
  iskeyFrame codec_id None demux_flags = Return false /\
  hasKeyFrameNalType codec_id None = Return false.
Proof. split; reflexivity. Qed.

(** C8. For a supported codec family (H.264, HEVC, AV1), a non-null packet
    and any flag word, [iskeyFrame] returns true exactly when
    [hasKeyFrameNalType] returns true and the container key-frame bit is set
    in the flags; for an unsupported family both predicates throw the
    domain error instead of returning false. *)
Theorem iskeyFrame_iff_nal_type_and_flag codec_id (p : packet) demux_flags :
  (supported codec_id = true ->
     (iskeyFrame codec_id (Some p) demux_flags = Return true <->
      hasKeyFrameNalType codec_id (Some p) = Return true /\
      Z.land demux_flags AV_PKT_FLAG_KEY <> 0)) /\
  (supported codec_id = false ->
     iskeyFrame codec_id (Some p) demux_flags = Throw (unsupported_codec codec_id) /\
     hasKeyFrameNalType codec_id (Some p) = Throw (unsupported_codec codec_id) /\
     kind (unsupported_codec codec_id) = std_domain_error).
Proof.
  split.
  - intros _. rewrite iskeyFrame_via_hasKeyFrameNalType, <- key_flag_set_spec.
    destruct (hasKeyFrameNalType codec_id (Some p)) as [b| |]; simpl.
    + unfold mret, outcome_ret. split.
      * intros [= H]. apply andb_true_iff in H as [-> ->]. done.
      * intros [[= ->] ->]. done.
    + split; [done | intros [? _]; done].
    + split; [done | intros [? _]; done].
  - destruct codec_id; simpl; try discriminate. done.
Qed.

Lemma iskeyFrame_iff_nal_type_and_flag_witness :
  iskeyFrame AV_CODEC_ID_H264 (Some Samples.sps_packet) AV_PKT_FLAG_KEY = Return true.
Proof.
  apply (proj1 (iskeyFrame_iff_nal_type_and_flag AV_CODEC_ID_H264 Samples.sps_packet
                  AV_PKT_FLAG_KEY) eq_refl).
  split; [reflexivity|discriminate].
Defined.

End ClassifierProofs.

Module GopIndexProofs.
Import Classifier GopIndex.

(** *** The walk over the sorted pairs *)

Lemma visit_gop_start_idx isVFR i entry st :
  gop_start_idx (visit isVFR i entry st) =
  gop_start_idx st ++ (if entry.2 then [i] else []).
Proof.
  unfold visit. destruct isVFR, (entry.2); simpl; by rewrite ?app_nil_r.
Qed.

Lemma visit_maps_cfr i entry st :
  frame2pts (visit false i entry st) = frame2pts st /\
  pts2frame (visit false i entry st) = pts2frame st.
Proof. unfold visit. by destruct (entry.2). Qed.

Lemma walk_index isVFR pairs : forall i st,
  (walk isVFR pairs i st).1 = i + Z.of_nat (length pairs).
Proof.
  induction pairs as [|entry pairs IH]; intros i st; simpl.
  - lia.
  - rewrite IH. lia.
Qed.

Lemma walk_gop_start_idx isVFR pairs : forall i st,
  gop_start_idx (walk isVFR pairs i st).2 = gop_start_idx st ++ key_offsets i (pairs.*2).
Proof.
  induction pairs as [|entry pairs IH]; intros i st; simpl.
  - by rewrite app_nil_r.
  - rewrite IH, visit_gop_start_idx. by rewrite <- app_assoc.
Qed.

Lemma walk_maps_cfr pairs : forall i st,
  frame2pts (walk false pairs i st).2 = frame2pts st /\
  pts2frame (walk false pairs i st).2 = pts2frame st.
Proof.
  induction pairs as [|entry pairs IH]; intros i st; simpl; [done|].
  destruct (IH (i + 1) (visit false i entry st)) as [-> ->].
  apply visit_maps_cfr.
Qed.

Lemma key_offsets_bounds key_flags : forall i x,
  x ∈ key_offsets i key_flags -> i <= x < i + Z.of_nat (length key_flags).
Proof.
  induction key_flags as [|b key_flags IH]; intros i x; simpl.
  - by intros ?%elem_of_nil.
  - rewrite elem_of_app. intros [Hx|Hx].
    + destruct b; [apply list_elem_of_singleton in Hx; lia | by apply elem_of_nil in Hx].
    + apply IH in Hx. lia.
Qed.

Lemma key_offsets_sorted key_flags : forall i,
  StronglySorted Z.lt (key_offsets i key_flags).
Proof.
  induction key_flags as [|b key_flags IH]; intros i; simpl.
  - constructor.
  - apply StronglySorted_app_2; [|destruct b; repeat constructor|apply IH].
    intros x1 x2 H1 H2%key_offsets_bounds.
    destruct b; [apply list_elem_of_singleton in H1; lia | by apply elem_of_nil in H1].
Qed.

Lemma key_offsets_no_key key_flags : forall i,
  Forall (fun b => b = false) key_flags -> key_offsets i key_flags = [].
Proof.
  induction key_flags as [|b key_flags IH]; intros i Hall; simpl; [done|].
  apply Forall_cons in Hall as [-> Hall]. by rewrite IH.
Qed.

Lemma key_offsets_head (sorted : list (Z * bool)) : forall i first,
  first_key_frame sorted = Some first ->
  head (key_offsets i (sorted.*2)) = Some (i + Z.of_nat first).
Proof.
  unfold first_key_frame.
  induction sorted as [|entry sorted IH]; intros i first; csimpl; [done|].
  case_decide as Hkey.
  - intros [= <-]. rewrite Hkey. simpl. f_equal. lia.
  - destruct (entry.2); [done|]. simpl.
    destruct (list_find _ sorted) as [[j y]|] eqn:Hfind; [|done].
    simpl. intros [= <-]. rewrite (IH (i + 1) j eq_refl). f_equal. lia.
Qed.

Lemma first_key_frame_is_Some (sorted : list (Z * bool)) entry :
  entry ∈ sorted -> entry.2 = true -> is_Some (first_key_frame sorted).
Proof.
  intros Hin Hkey. unfold first_key_frame.
  destruct (list_find_elem_of (fun p : Z * bool => p.2 = true) sorted entry Hin Hkey)
    as [[j y] ->].
  by exists j.
Qed.

(** *** Sorting by timestamp *)

#[local] Instance pts_le_total : Total pts_le.
Proof. intros a b. unfold pts_le. lia. Qed.

#[local] Instance pts_le_trans : Transitive pts_le.
Proof. intros a b c. unfold pts_le. lia. Qed.

Lemma sort_by_pts_Permutation pairs : sort_by_pts pairs ≡ₚ pairs.
Proof. apply merge_sort_Permutation. Qed.

Lemma sort_by_pts_sorted pairs : StronglySorted pts_le (sort_by_pts pairs).
Proof. apply StronglySorted_merge_sort; apply _. Qed.

Lemma sort_by_pts_length pairs : length (sort_by_pts pairs) = length pairs.
Proof. by rewrite sort_by_pts_Permutation. Qed.

(** With pairwise different timestamps a pair is known by its timestamp. *)
Lemma same_timestamp_same_pair (pairs : list (Z * bool)) a b :
  NoDup (pairs.*1) -> a ∈ pairs -> b ∈ pairs -> a.1 = b.1 -> a = b.
Proof.
  induction pairs as [|c pairs IH]; intros Hnd Ha Hb Hts.
  - by apply elem_of_nil in Ha.
  - cbn in Hnd. apply NoDup_cons in Hnd as [Hc Hnd].
    apply elem_of_cons in Ha as [->|Ha]; apply elem_of_cons in Hb as [->|Hb].
    + done.
    + destruct Hc. rewrite Hts. by apply list_elem_of_fmap_2.
    + destruct Hc. rewrite <- Hts. by apply list_elem_of_fmap_2.
    + by apply IH.
Qed.

(** With pairwise different timestamps every sorted permutation of the
    pairs, so whatever [std::sort] returns, is [sort_by_pts pairs]. *)
Lemma sort_by_pts_unique pairs sorted :
  NoDup (pairs.*1) -> sorted ≡ₚ pairs -> Sorted pts_le sorted ->
  sorted = sort_by_pts pairs.
Proof.
  intros Hnd Hperm Hsorted.
  apply (Sorted_unique_strong pts_le).
  - intros a b Ha Hb Hab Hba.
    apply (same_timestamp_same_pair pairs); [done| | |].
    + by rewrite <- Hperm.
    + by rewrite <- (sort_by_pts_Permutation pairs).
    + unfold pts_le in *. lia.
  - done.
  - apply Sorted_merge_sort. apply _.
  - by rewrite sort_by_pts_Permutation.
Qed.

(** *** What [parse_gop_start_idx] returns *)

(** Once the demultiplexing pass has returned, the call returns: the
    recorded key-frame indices followed by the frame count. *)
Lemma parse_gop_start_idx_returns demuxer f2p p2f isVFR pairs :
  demux_pass (GetVideoCodec demuxer) (packets demuxer) = Return pairs ->
  exists f2p' p2f',
    parse_gop_start_idx demuxer f2p p2f isVFR =
    Return (key_offsets 0 ((sort_by_pts pairs).*2) ++ [Z.of_nat (length pairs)], f2p', p2f') /\
    (isVFR = false -> f2p' = f2p /\ p2f' = p2f).
Proof.
  intros Hpass. unfold parse_gop_start_idx. rewrite Hpass. simpl.
  pose proof (walk_index isVFR (sort_by_pts pairs) 0 (IndexState [] f2p p2f)) as Hidx.
  pose proof (walk_gop_start_idx isVFR (sort_by_pts pairs) 0 (IndexState [] f2p p2f)) as Hgop.
  pose proof (walk_maps_cfr (sort_by_pts pairs) 0 (IndexState [] f2p p2f)) as Hmaps.
  destruct (walk isVFR (sort_by_pts pairs) 0 (IndexState [] f2p p2f)) as [idx st] eqn:Hwalk.
  simpl in *. rewrite sort_by_pts_length in Hidx. subst idx. rewrite Hgop.
  case_decide as Hlen.
  - rewrite length_app in Hlen. simpl in Hlen. lia.
  - exists (frame2pts st), (pts2frame st). split; [done|].
    intros ->. rewrite Hwalk in Hmaps. simpl in Hmaps. done.
Qed.

Lemma iskeyFrame_throws codec_id pVideo demux_flags e :
  iskeyFrame codec_id pVideo demux_flags = Throw e -> e = unsupported_codec codec_id.
Proof.
  unfold iskeyFrame. destruct pVideo as [p|]; [|done].
  destruct codec_id; simpl.
  - destruct (nal_header_byte p) eqn:Hb; simpl; try done.
    unfold nal_header_byte, byte_at, at_index in Hb.
    repeat (case_decide || case_match || simplify_eq/= ); done.
  - destruct (nal_header_byte p) eqn:Hb; simpl; try done.
    unfold nal_header_byte, byte_at, at_index in Hb.
    repeat (case_decide || case_match || simplify_eq/= ); done.
  - destruct (byte_at p 0) eqn:Hb; simpl; try done.
    unfold byte_at, at_index in Hb.
    repeat (case_decide || case_match || simplify_eq/= ); done.
  - by intros [= <-].
Qed.

Lemma demux_pass_throws codec_id pending e :
  demux_pass codec_id pending = Throw e ->
  e = demux_error \/ e = unsupported_codec codec_id.
Proof.
  induction pending as [|r pending IH]; simpl; [done|].
  case_decide; [done|]. destruct (ret r); [|intros [= <-]; by left].
  destruct (iskeyFrame codec_id (pVideo r) (flags r)) as [k|e'|] eqn:Hkey; simpl.
  - destruct (demux_pass codec_id pending); simpl; done.
  - intros [= <-]. right. by eapply iskeyFrame_throws.
  - done.
Qed.

(** The "empty video" error is never thrown: the sentinel is appended
    before the size of the table is tested. *)
Lemma parse_gop_start_idx_never_empty_video demuxer f2p p2f isVFR :
  parse_gop_start_idx demuxer f2p p2f isVFR <> Throw empty_video.
Proof.
  intros Hthrow.
  destruct (demux_pass (GetVideoCodec demuxer) (packets demuxer)) as [pairs|e|] eqn:Hpass.
  - destruct (parse_gop_start_idx_returns demuxer f2p p2f isVFR pairs Hpass)
      as (?&?&Hret&_). congruence.
  - unfold parse_gop_start_idx in Hthrow. rewrite Hpass in Hthrow. simpl in Hthrow.
    injection Hthrow as ->.
    apply demux_pass_throws in Hpass as [Hpass|Hpass]; [done|].
    by destruct (GetVideoCodec demuxer).
  - unfold parse_gop_start_idx in Hthrow. rewrite Hpass in Hthrow. done.
Qed.

(** *** Boundary tables *)

Lemma in_gop_unique table k k' f :
  StronglySorted Z.lt table -> in_gop table k f -> in_gop table k' f -> k' = k.
Proof.
  intros Hs (a&b&Ha&Hb&Hf) (a'&b'&Ha'&Hb'&Hf').
  destruct (Nat.lt_trichotomy k k') as [Hlt|[->|Hlt]]; [|done|].
  - pose proof (sorted_lookup_le table (S k) k' b a' Hs Hb Ha'). lia.
  - pose proof (sorted_lookup_le table (S k') k b' a Hs Hb' Ha). lia.
Qed.

Lemma in_gop_exists table : forall a b f,
  head table = Some a -> last table = Some b -> a <= f < b -> exists k, in_gop table k f.
Proof.
  induction table as [|x table IH]; intros a b f Hhead Hlast Hf; [done|].
  simpl in Hhead. injection Hhead as ->.
  destruct table as [|y table]; simpl in Hlast.
  - injection Hlast as ->. lia.
  - destruct (decide (f < y)) as [Hlt|Hge].
    + exists 0%nat, a, y. simpl. split_and!; first [done|lia].
    + destruct (IH y b f) as (k&a'&b'&?&?&?); [done|done|lia|].
      exists (S k), a', b'. done.
Qed.

Lemma in_gop_not_before_head table a k f :
  StronglySorted Z.lt table -> head table = Some a -> in_gop table k f -> a <= f.
Proof.
  intros Hs Hhead (x&b&Hx&_&Hf). rewrite head_lookup in Hhead.
  pose proof (sorted_lookup_le table 0 k a x Hs Hhead Hx). lia.
Qed.

Lemma boundary_table_sorted key_flags :
  StronglySorted Z.lt (key_offsets 0 key_flags ++ [Z.of_nat (length key_flags)]).
Proof.
  apply StronglySorted_app_2; [|apply key_offsets_sorted|repeat constructor].
  intros x1 x2 H1%key_offsets_bounds H2%list_elem_of_singleton. lia.
Qed.

(** C1. A stream without any key frame does not make [parse_gop_start_idx]
    fail with the "empty video" error: the call returns the one-entry table
    that holds the frame count. *)
Theorem parse_gop_start_idx_without_key_frame demuxer f2p p2f isVFR pairs :
  demux_pass (GetVideoCodec demuxer) (packets demuxer) = Return pairs ->
  Forall (fun entry : Z * bool => entry.2 = false) pairs ->
  exists f2p' p2f',
    parse_gop_start_idx demuxer f2p p2f isVFR =
    Return ([Z.of_nat (length pairs)], f2p', p2f').
Proof.
  intros Hpass Hnone.
  destruct (parse_gop_start_idx_returns demuxer f2p p2f isVFR pairs Hpass)
    as (f2p'&p2f'&Hret&_).
  exists f2p', p2f'. rewrite Hret, key_offsets_no_key; [done|].
  apply Forall_fmap. rewrite sort_by_pts_Permutation.
  eapply Forall_impl; [exact Hnone|]. done.
Qed.

Lemma parse_gop_start_idx_without_key_frame_witness :
  exists f2p' p2f',
    parse_gop_start_idx Samples.no_key_frame ∅ ∅ false = Return ([2], f2p', p2f').
Proof.
  apply (parse_gop_start_idx_without_key_frame Samples.no_key_frame ∅ ∅ false
           [(0, false); (1, false)]).
  - reflexivity.
  - repeat constructor.
Defined.

(** C3, as the specification words it, fails on a stream whose first frame
    is not a key frame: the table is [1; 2] and frame 0 of the two frames
    lies in no GOP. *)
Lemma parse_gop_start_idx_leading_frame_uncovered :
  parse_gop_start_idx Samples.late_key_frame ∅ ∅ false = Return ([1; 2], ∅, ∅) /\
  0 <= 0 < 2 /\
  ~ exists k, in_gop [1; 2] k 0.
Proof.
  split; [by vm_compute|]. split; [lia|].
  intros (k&a&b&Ha&Hb&Hf).
  destruct k as [|[|k]]; simpl in *; simplify_eq; lia.
Qed.

(** C3, amended. When the stream has a key frame, the table returned by
    [parse_gop_start_idx] is strictly increasing and ends with the frame
    count; every frame id from the first boundary up to the frame count
    lies in exactly one GOP, and a frame id before the first boundary in
    none.  When the timestamps are pairwise different, the first boundary
    is the index in timestamp order of the first key frame, whichever
    sorted permutation [std::sort] produces. *)
Theorem parse_gop_start_idx_partition demuxer f2p p2f isVFR pairs :
  demux_pass (GetVideoCodec demuxer) (packets demuxer) = Return pairs ->
  (exists entry, entry ∈ pairs /\ entry.2 = true) ->
  exists table f2p' p2f' (first : nat),
    parse_gop_start_idx demuxer f2p p2f isVFR = Return (table, f2p', p2f') /\
    head table = Some (Z.of_nat first) /\
    (first < length pairs)%nat /\
    StronglySorted Z.lt table /\
    last table = Some (Z.of_nat (length pairs)) /\
    (forall f, Z.of_nat first <= f < Z.of_nat (length pairs) ->
       exists k, in_gop table k f /\ forall k', in_gop table k' f -> k' = k) /\
    (forall f k, f < Z.of_nat first -> ~ in_gop table k f) /\
    (NoDup (pairs.*1) ->
     forall sorted, sorted ≡ₚ pairs -> Sorted pts_le sorted ->
       first_key_frame sorted = Some first).
Proof.
  intros Hpass (entry&Hin&Hkey).
  destruct (parse_gop_start_idx_returns demuxer f2p p2f isVFR pairs Hpass)
    as (f2p'&p2f'&Hret&_).
  destruct (first_key_frame_is_Some (sort_by_pts pairs) entry) as [first Hfirst];
    [by rewrite sort_by_pts_Permutation|done|].
  set (table := key_offsets 0 ((sort_by_pts pairs).*2) ++ [Z.of_nat (length pairs)]) in *.
  assert (Hsorted : StronglySorted Z.lt table).
  { subst table. rewrite <- (sort_by_pts_length pairs), <- (length_fmap snd).
    apply boundary_table_sorted. }
  assert (Hhead : head table = Some (Z.of_nat first)).
  { subst table. pose proof (key_offsets_head _ 0 first Hfirst) as Hh.
    destruct (key_offsets 0 ((sort_by_pts pairs).*2)); [done|].
    simpl in *. by rewrite Hh, Z.add_0_l. }
  assert (Hlast : last table = Some (Z.of_nat (length pairs))).
  { subst table. apply last_snoc. }
  assert (Hbound : (first < length pairs)%nat).
  { unfold first_key_frame in Hfirst.
    apply fmap_Some in Hfirst as ([n found]&Hfind&->).
    apply list_find_Some in Hfind as (Hlookup&_).
    apply lookup_lt_Some in Hlookup. by rewrite sort_by_pts_length in Hlookup. }
  exists table, f2p', p2f', first. split_and!; try done.
  - intros f Hf.
    destruct (in_gop_exists table _ _ f Hhead Hlast Hf) as [k Hk].
    exists k. split; [done|]. intros k' Hk'. by eapply in_gop_unique.
  - intros f k Hf Hk.
    pose proof (in_gop_not_before_head table _ k f Hsorted Hhead Hk). lia.
  - intros Hnd sorted Hperm Hs.
    by rewrite (sort_by_pts_unique pairs sorted Hnd Hperm Hs).
Qed.

Lemma parse_gop_start_idx_partition_witness :
  exists table f2p' p2f' (first : nat),
    parse_gop_start_idx Samples.reordered_frames ∅ ∅ false = Return (table, f2p', p2f') /\
    head table = Some (Z.of_nat first) /\
    (first < 10)%nat /\
    StronglySorted Z.lt table /\
    last table = Some 10 /\
    (forall f, Z.of_nat first <= f < 10 ->
       exists k, in_gop table k f /\ forall k', in_gop table k' f -> k' = k) /\
    (forall f k, f < Z.of_nat first -> ~ in_gop table k f) /\
    (NoDup ([(0, true); (2, false); (1, false); (3, false); (4, true);
             (5, false); (6, false); (7, false); (8, true); (9, false)].*1) ->
     forall sorted,
       sorted ≡ₚ [(0, true); (2, false); (1, false); (3, false); (4, true);
                  (5, false); (6, false); (7, false); (8, true); (9, false)] ->
       Sorted pts_le sorted ->
       first_key_frame sorted = Some first).
Proof.
  apply (parse_gop_start_idx_partition Samples.reordered_frames ∅ ∅ false
           [(0, true); (2, false); (1, false); (3, false); (4, true);
            (5, false); (6, false); (7, false); (8, true); (9, false)]).
  - reflexivity.
  - exists (0, true). split; [apply list_elem_of_here|reflexivity].
Defined.

(** *** Requests inside the stream *)

Lemma sorted_le_lookup (ids : list Z) : forall (i j : nat) x y,
  Sorted Z.le ids -> ids !! i = Some x -> ids !! j = Some y -> (i <= j)%nat -> x <= y.
Proof.
  intros i j x y Hs%Sorted_StronglySorted; [|apply _]. revert i j x y.
  induction Hs as [|a ids Hs IH Hall]; intros i j x y Hi Hj Hij; [done|].
  destruct i as [|i], j as [|j]; simpl in *; simplify_eq; try lia.
  - rewrite Forall_forall in Hall. apply Hall. by eapply list_elem_of_lookup_2.
  - apply (IH i j); [done..|lia].
Qed.

(** On a strictly increasing table, for requests that are sorted and lie
    between the first and the last boundary, the loop of
    [parse_gop_length] ends within the iterations it is given and returns. *)
Lemma parse_gop_length_loop_returns table ids first_boundary last_boundary :
  StronglySorted Z.lt table ->
  head table = Some first_boundary ->
  last table = Some last_boundary ->
  Sorted Z.le ids ->
  Forall (fun x => first_boundary <= x < last_boundary) ids ->
  forall fuel (i : nat) lens firsts,
    (i <= length ids)%nat -> (length ids - i <= fuel)%nat ->
    exists lens' firsts',
      parse_gop_length_loop fuel table ids (Z.of_nat i) lens firsts =
      Some (Return (lens', firsts')).
Proof.
  intros Htable Hhead Hlast Hids Hrange.
  rewrite head_lookup in Hhead. rewrite last_lookup in Hlast.
  induction fuel as [|fuel IH]; intros i lens firsts Hi Hfuel.
  - simpl. rewrite decide_True by lia. eauto.
  - simpl. case_decide as Hend; [eauto|].
    rewrite at_index_lookup.
    destruct (lookup_lt_is_Some_2 ids i ltac:(lia)) as [x Hx]. rewrite Hx.
    assert (Hxr : first_boundary <= x < last_boundary).
    { rewrite Forall_forall in Hrange. apply Hrange. by eapply list_elem_of_lookup_2. }
    destruct (upper_bound_spec table x) as (n&->&Hn&Hle&Hgt).
    assert (Hn0 : n <> 0%nat).
    { intros ->. pose proof (Hgt _ Hhead). lia. }
    assert (Hnlen : (n < length table)%nat).
    { destruct (decide (n < length table)%nat); [done|].
      assert (0 < length table)%nat by (by eapply lookup_lt_Some).
      pose proof (Hle _ _ Hlast ltac:(lia)). lia. }
    rewrite at_index_lookup.
    destruct (lookup_lt_is_Some_2 table n Hnlen) as [next Hnext]. rewrite Hnext.
    rewrite decide_False by lia.
    destruct n as [|m]; [done|].
    replace (Z.of_nat (S m) - 1) with (Z.of_nat m) by lia.
    rewrite at_index_lookup.
    destruct (lookup_lt_is_Some_2 table m ltac:(lia)) as [prev Hprev]. rewrite Hprev.
    destruct (lower_bound_spec ids next) as (i'&->&Hi'&Hbelow&Habove).
    apply IH; [done|].
    assert (i < i')%nat; [|lia].
    destruct (decide (i < i')%nat); [done|].
    destruct (lookup_lt_is_Some_2 ids i' ltac:(lia)) as [y Hy].
    pose proof (Habove _ Hy). pose proof (Hgt _ Hnext).
    pose proof (sorted_le_lookup ids i' i y x Hids Hy Hx ltac:(lia)). lia.
Qed.

Lemma parse_gop_length_returns table ids first_frame_ids first_boundary last_boundary :
  StronglySorted Z.lt table ->
  head table = Some first_boundary ->
  last table = Some last_boundary ->
  Sorted Z.le ids -> ids <> [] ->
  Forall (fun x => first_boundary <= x < last_boundary) ids ->
  exists gop_length first_frame_ids',
    parse_gop_length table ids first_frame_ids =
    Some (Return (gop_length, first_frame_ids')).
Proof.
  intros Htable Hhead Hlast Hids Hne Hrange.
  apply last_is_Some in Hne as [last_id Hid].
  unfold parse_gop_length, back. rewrite Hid, Hlast.
  rewrite decide_False.
  2:{ rewrite Forall_forall in Hrange.
      pose proof (Hrange last_id (last_Some_elem_of _ _ Hid)). lia. }
  apply (parse_gop_length_loop_returns table ids first_boundary last_boundary
           Htable Hhead Hlast Hids Hrange (length ids) 0%nat); lia.
Qed.

(** A single request is mapped to the GOP it lies in. *)
Lemma parse_gop_length_single table k frame_id first_id next_id first_frame_ids :
  StronglySorted Z.lt table ->
  table !! k = Some first_id -> table !! S k = Some next_id ->
  first_id <= frame_id < next_id ->
  parse_gop_length table [frame_id] first_frame_ids =
  Some (Return ([next_id - first_id], first_frame_ids ++ [first_id])).
Proof.
  intros Htable Hk HSk Hf.
  destruct (lookup_lt_is_Some_2 table (pred (length table))) as [b Hlast].
  { apply lookup_lt_Some in HSk. lia. }
  pose proof (sorted_lookup_le table (S k) (pred (length table)) next_id b Htable HSk Hlast
                ltac:(apply lookup_lt_Some in HSk; lia)).
  rewrite <- last_lookup in Hlast.
  unfold parse_gop_length, back. simpl. rewrite Hlast.
  rewrite decide_False by lia. simpl.
  destruct (upper_bound_spec table frame_id) as (n&->&Hn&Hle&Hgt).
  assert (n = S k) as ->.
  { destruct (Nat.lt_trichotomy n (S k)) as [Hlt|[->|Hlt]]; [|done|].
    - destruct (lookup_lt_is_Some_2 table n) as [y Hy].
      { apply lookup_lt_Some in HSk. lia. }
      pose proof (Hgt _ Hy).
      pose proof (sorted_lookup_le table n k y first_id Htable Hy Hk ltac:(lia)). lia.
    - pose proof (Hle _ _ HSk Hlt). lia. }
  change (at_index [frame_id] 0) with (Return (A:=Z) frame_id). cbv beta iota.
  rewrite at_index_lookup, HSk. rewrite decide_False by lia.
  replace (Z.of_nat (S k) - 1) with (Z.of_nat k) by lia.
  rewrite at_index_lookup, Hk.
  rewrite (decide_True (P := frame_id < next_id)) by lia.
  rewrite decide_True by lia. done.
Qed.

(** C7. For a constant-frame-rate stream of ten frames with pairwise
    different timestamps whose key frames are the frames 0, 4 and 8 of
    the presentation order, [parse_gop_start_idx] returns the table
    [0; 4; 8; 10], and [parse_gop_length] maps the request for frame 6 to
    the GOP with first frame 4 and length 4.  The presentation order is
    any sorted permutation of the packets as they arrive. *)
Theorem seek_determinism demuxer f2p p2f pairs sorted :
  demux_pass (GetVideoCodec demuxer) (packets demuxer) = Return pairs ->
  NoDup (pairs.*1) ->
  sorted ≡ₚ pairs ->
  Sorted pts_le sorted ->
  sorted.*2 = [true; false; false; false; true; false; false; false; true; false] ->
  parse_gop_start_idx demuxer f2p p2f false = Return ([0; 4; 8; 10], f2p, p2f) /\
  parse_gop_length [0; 4; 8; 10] [6] [] = Some (Return ([4], [4])).
Proof.
  intros Hpass Hnd Hperm Hsorted Hflags. split; [|reflexivity].
  rewrite (sort_by_pts_unique pairs sorted Hnd Hperm Hsorted) in Hflags.
  destruct (parse_gop_start_idx_returns demuxer f2p p2f false pairs Hpass)
    as (f2p'&p2f'&Hret&Hmaps).
  destruct (Hmaps eq_refl) as [-> ->]. rewrite Hret, Hflags.
  assert (length pairs = 10%nat) as ->; [|reflexivity].
  by rewrite <- sort_by_pts_length, <- (length_fmap snd), Hflags.
Qed.

Lemma seek_determinism_witness :
  parse_gop_start_idx Samples.reordered_frames ∅ ∅ false = Return ([0; 4; 8; 10], ∅, ∅) /\
  parse_gop_length [0; 4; 8; 10] [6] [] = Some (Return ([4], [4])).
Proof.
  apply (seek_determinism Samples.reordered_frames ∅ ∅
           [(0, true); (2, false); (1, false); (3, false); (4, true);
            (5, false); (6, false); (7, false); (8, true); (9, false)]
           [(0, true); (1, false); (2, false); (3, false); (4, true);
            (5, false); (6, false); (7, false); (8, true); (9, false)]).
  - reflexivity.
  - apply (bool_decide_unpack _). vm_compute. exact I.
  - apply perm_skip. apply perm_swap.
  - repeat constructor; unfold pts_le; simpl; lia.
  - reflexivity.
Defined.

(** *** Requests past the end of the stream *)

(** C4. If a request of a non-empty sorted list of frame ids is not below
    the last boundary of the table, [parse_gop_length] throws
    [std::out_of_range]; it returns no GOP for the request. *)
Theorem parse_gop_length_out_of_range gop_start_id_list sorted_frame_ids first_frame_ids
    last_boundary frame_id :
  sorted_frame_ids <> [] ->
  Sorted Z.le sorted_frame_ids ->
  last gop_start_id_list = Some last_boundary ->
  frame_id ∈ sorted_frame_ids ->
  frame_id >= last_boundary ->
  exists last_id,
    last sorted_frame_ids = Some last_id /\
    parse_gop_length gop_start_id_list sorted_frame_ids first_frame_ids =
      Some (Throw (end_frame_behind last_boundary last_id)) /\
    kind (end_frame_behind last_boundary last_id) = std_out_of_range.
Proof.
  intros Hne Hsorted Hlast Hin Hge.
  apply last_is_Some in Hne as [last_id Hid].
  pose proof (sorted_last_is_max _ _ _ Hsorted Hin Hid).
  exists last_id. split_and!; [done| |done].
  unfold parse_gop_length, back. rewrite Hid, Hlast.
  case_decide; [done|lia].
Qed.

Lemma parse_gop_length_out_of_range_witness :
  exists last_id,
    last [2; 6; 10] = Some last_id /\
    parse_gop_length [0; 4; 8; 10] [2; 6; 10] [] =
      Some (Throw (end_frame_behind 10 last_id)) /\
    kind (end_frame_behind 10 last_id) = std_out_of_range.
Proof.
  apply (parse_gop_length_out_of_range [0; 4; 8; 10] [2; 6; 10] [] 10 10).
  - discriminate.
  - repeat constructor; lia.
  - reflexivity.
  - set_solver.
  - lia.
Defined.

End GopIndexProofs.

Module GopDemuxerProofs.
Import Classifier GopDemuxer.

(** *** [getKeyFrameId] *)

(** C10. On a non-empty, strictly increasing table and a frame id between
    its first and last entries, [getKeyFrameId] reads inside the table only
    and returns the greatest entry that is not above the frame id; for a
    frame id below the first or above the last entry one of its two
    unguarded dereferences leaves the table and the call has no value. *)
Theorem getKeyFrameId_spec key_frame_ids first_key last_key frame_id :
  StronglySorted Z.lt key_frame_ids ->
  head key_frame_ids = Some first_key ->
  last key_frame_ids = Some last_key ->
  (first_key <= frame_id <= last_key ->
     exists key,
       getKeyFrameId key_frame_ids frame_id = Return key /\
       key ∈ key_frame_ids /\ key <= frame_id /\
       forall key', key' ∈ key_frame_ids -> key' <= frame_id -> key' <= key) /\
  (frame_id < first_key \/ last_key < frame_id ->
     getKeyFrameId key_frame_ids frame_id = Undefined).
Proof.
  intros Hsorted Hhead Hlast.
  rewrite head_lookup in Hhead. rewrite last_lookup in Hlast.
  destruct (lower_bound_spec key_frame_ids frame_id) as (n&Hn&Hlen&Hlt&Hge).
  unfold getKeyFrameId. rewrite Hn, at_index_lookup.
  split.
  - intros [Hlo Hhi].
    destruct (key_frame_ids !! n) as [cur|] eqn:Hcur.
    2:{ apply lookup_ge_None in Hcur.
        assert (Hpos : (0 < length key_frame_ids)%nat) by (by eapply lookup_lt_Some).
        pose proof (Hlt _ _ Hlast ltac:(lia)). lia. }
    pose proof (Hge _ eq_refl) as Hcur_ge. simpl.
    case_decide as Heq.
    + subst cur. exists frame_id.
      split_and!; [done|by eapply list_elem_of_lookup_2|lia|done].
    + destruct n as [|m].
      { rewrite Hhead in Hcur. simplify_eq. lia. }
      replace (Z.of_nat (S m) - 1) with (Z.of_nat m) by lia.
      rewrite at_index_lookup.
      destruct (key_frame_ids !! m) as [prev|] eqn:Hprev.
      2:{ apply lookup_ge_None in Hprev. apply lookup_lt_Some in Hcur. lia. }
      exists prev. pose proof (Hlt m prev Hprev ltac:(lia)).
      split_and!; [done|by eapply list_elem_of_lookup_2|lia|].
      intros key' [j Hj]%list_elem_of_lookup Hle.
      destruct (decide (j <= m)%nat).
      * by eapply (sorted_lookup_le key_frame_ids j m).
      * pose proof (sorted_lookup_le key_frame_ids (S m) j cur key'
                      Hsorted Hcur Hj ltac:(lia)). lia.
  - intros [Hlow|Hhigh].
    + destruct n as [|m].
      * rewrite Hhead. simpl. rewrite decide_False by lia.
        by apply at_index_negative.
      * pose proof (Hlt 0%nat first_key Hhead ltac:(lia)). lia.
    + destruct (key_frame_ids !! n) as [cur|] eqn:Hcur; [|done].
      pose proof (Hge _ eq_refl).
      pose proof (lookup_lt_Some _ _ _ Hcur).
      pose proof (sorted_lookup_le key_frame_ids n
                    (pred (length key_frame_ids)) cur last_key Hsorted Hcur Hlast ltac:(lia)).
      lia.
Qed.

Lemma getKeyFrameId_spec_witness :
  (exists key,
     getKeyFrameId [0; 4; 8; 10] 6 = Return key /\
     key ∈ [0; 4; 8; 10] /\ key <= 6 /\
     forall key', key' ∈ [0; 4; 8; 10] -> key' <= 6 -> key' <= key) /\
  getKeyFrameId [0; 4; 8; 10] 11 = Undefined /\
  getKeyFrameId [4; 8; 10] 3 = Undefined.
Proof.
  split_and!.
  - apply (proj1 (getKeyFrameId_spec [0; 4; 8; 10] 0 10 6
                    ltac:(repeat constructor; lia) eq_refl eq_refl)).
    lia.
  - apply (proj2 (getKeyFrameId_spec [0; 4; 8; 10] 0 10 11
                    ltac:(repeat constructor; lia) eq_refl eq_refl)).
    right. lia.
  - apply (proj2 (getKeyFrameId_spec [4; 8; 10] 4 10 3
                    ltac:(repeat constructor; lia) eq_refl eq_refl)).
    left. lia.
Defined.

(** *** [SeekGopFirstFrameNoMap] *)

Section UnmappedSeek.

Variable demuxer_state : Type.
Variable IsVFRV2 : bool.
Variable GetVideoCodec : AVCodecID.
Variable TsFromFrameNumber : Z -> Z.
Variable FrameNumFromTs : Z -> Z.
Variable SeekWithTS : demuxer_state -> Z -> seek_result * demuxer_state.

Abbreviation seek_loop :=
  (seek_loop demuxer_state GetVideoCodec TsFromFrameNumber FrameNumFromTs SeekWithTS).

#[local] Arguments hasKeyFrameNalType : simpl never.

Abbreviation accepted := (accepted demuxer_state GetVideoCodec).

Lemma seek_loop_found fuel frame_id_to_seek : forall found_key_frame st st',
  seek_loop fuel frame_id_to_seek found_key_frame st = Some (Return (true, st')) ->
  (found_key_frame = true -> accepted frame_id_to_seek st) ->
  accepted frame_id_to_seek st'.
Proof.
  induction fuel as [|fuel IH]; intros found st st'; simpl.
  - destruct (negb found && _) eqn:Hcond; [done|].
    intros [= -> ->]. auto.
  - destruct (negb found && _) eqn:Hcond; [|intros [= -> ->]; auto].
    destruct (SeekWithTS _ _) as [r d].
    destruct (seek_ret r); simpl; [|done].
    destruct (seek_pVideo r) as [pVideo|] eqn:HpVideo; [|done].
    destruct (hasKeyFrameNalType GetVideoCodec (Some pVideo)) as [[]| |] eqn:Hnal;
      try done.
    + destruct (decide (_ > _)) as [Hlate|Hlate].
      * intros Hloop _. apply (IH _ _ _ Hloop). done.
      * intros Hloop _. apply (IH _ _ _ Hloop). intros _.
        split; simpl; [eauto|lia].
    + destruct (decide (_ < _)); [done|].
      intros Hloop _. apply (IH _ _ _ Hloop). done.
Qed.


(** The loop ends when no seek lands behind the point it was asked for:
    the search point then moves down by at least one frame per turn. *)
Hypothesis seek_lands_before : forall d frame,
  0 <= frame ->
  to_int32 (FrameNumFromTs
    (seek_timestamp_out (SeekWithTS d (to_int32 (TsFromFrameNumber frame))).1)) <= frame.

Lemma seek_loop_stops fuel frame_id_to_seek st :
  seek_loop fuel frame_id_to_seek true st = Some (Return (true, st)).
Proof. by destruct fuel. Qed.

Lemma seek_loop_ends fuel frame_id_to_seek : forall found_key_frame st,
  current_frame_to_seek st + 1 <= Z.of_nat fuel ->
  is_Some (seek_loop fuel frame_id_to_seek found_key_frame st).
Proof.
  induction fuel as [|fuel IH]; intros found st Hfuel; simpl.
  - destruct (negb found && _) eqn:Hcond; [|done].
    apply andb_prop in Hcond as [_ Hcur%bool_decide_eq_true]. lia.
  - destruct (negb found && _) eqn:Hcond; [|done].
    apply andb_prop in Hcond as [_ Hcur%bool_decide_eq_true].
    pose proof (seek_lands_before (demuxer st) (current_frame_to_seek st)) as Hland.
    destruct (SeekWithTS _ _) as [r d]. simpl in Hland.
    destruct (seek_ret r); simpl; [|done].
    destruct (seek_pVideo r) as [pVideo|]; [|done].
    destruct (hasKeyFrameNalType GetVideoCodec (Some pVideo)) as [[]| |];
      try done.
    + destruct (decide (_ > _)); [apply IH; simpl; lia|].
      by rewrite seek_loop_stops.
    + destruct (decide (_ < _)); [done|]. apply IH; simpl; lia.
Qed.

End UnmappedSeek.


End GopDemuxerProofs.

Module RunnerProofs.
Import Runner.

Lemma new_coherent : coherent new.
Proof. done. Qed.

Lemma step_coherent s ev raised s' :
  coherent s -> step s ev = Some (raised, s') -> coherent s'.
Proof.
  unfold coherent. intros Hco Hstep.
  destruct ev; simpl in Hstep.
  - by simplify_eq.
  - unfold join in Hstep.
    destruct (bool_decide _ && _); [|done].
    destruct (hasException s); [destruct (exceptionPtr s)|]; by simplify_eq.
  - by simplify_eq.
  - unfold force_join_finish in Hstep. destruct (busy s) eqn:?; by simplify_eq/=.
  - unfold worker_take in Hstep.
    destruct (worker s) eqn:?; try done.
    destruct (tasks s); [destruct (stopFlag s)|]; by simplify_eq/=.
  - unfold worker_execute in Hstep.
    destruct (worker s) as [|[]| |] eqn:?; by simplify_eq/=.
  - unfold worker_finish in Hstep.
    destruct (worker s) eqn:?; by simplify_eq/=.
Qed.

Lemma run_coherent evs : forall s thrown s',
  coherent s -> run s evs = Some (thrown, s') -> coherent s'.
Proof.
  induction evs as [|ev evs IH]; intros s thrown s' Hco; simpl.
  - by intros [= _ <-].
  - destruct (step s ev) as [[raised s1]|] eqn:Hstep; [|done].
    destruct (run s1 evs) as [[thrown1 s2]|] eqn:Hrun; [|done].
    intros [= _ <-]. eapply IH; [|done]. by eapply step_coherent.
Qed.

(** With the failure state cleared and no failing task around, nothing
    sets it again and every join returns. *)
Lemma step_calm s ev raised s' :
  calm s -> starts_failing_task ev = false -> step s ev = Some (raised, s') ->
  raised = None /\ calm s'.
Proof.
  unfold calm, cleared, no_failing_task. intros ((Hhas&Hptr)&Hq&Hw) Hev Hstep.
  destruct ev; simpl in Hev, Hstep.
  - simplify_eq/=. split_and!; try done.
    apply Forall_app. split; [done|]. by constructor.
  - unfold join in Hstep. rewrite Hhas in Hstep.
    destruct (bool_decide _ && _); by simplify_eq.
  - simplify_eq/=. split_and!; try done.
  - unfold force_join_finish in Hstep. destruct (busy s); by simplify_eq/=.
  - unfold worker_take in Hstep. destruct (worker s) eqn:?; try done.
    destruct (tasks s) as [|t rest] eqn:Ht; [destruct (stopFlag s)|]; simplify_eq/=.
    + done.
    + apply Forall_cons in Hq as [? ?]. done.
  - unfold worker_execute in Hstep.
    destruct (worker s) as [|[]| |] eqn:?; by simplify_eq/=.
  - unfold worker_finish in Hstep.
    destruct (worker s) eqn:?; by simplify_eq/=.
Qed.

Lemma run_calm evs : forall s thrown s',
  calm s -> Forall (fun ev => starts_failing_task ev = false) evs ->
  run s evs = Some (thrown, s') -> thrown = [] /\ calm s'.
Proof.
  induction evs as [|ev evs IH]; intros s thrown s' Hs Hevs; simpl.
  - by intros [= <- <-].
  - apply Forall_cons in Hevs as [Hev Hevs].
    destruct (step s ev) as [[raised s1]|] eqn:Hstep; [|done].
    destruct (run s1 evs) as [[thrown1 s2]|] eqn:Hrun; [|done].
    intros [= <- <-].
    destruct (step_calm s ev raised s1 Hs Hev Hstep) as [-> Hs1].
    destruct (IH s1 thrown1 s2 Hs1 Hevs Hrun) as [-> ?]. done.
Qed.

Lemma join_returns s :
  quiescent s -> hasException s = false -> join s = Some (Return (), s).
Proof.
  intros [Ht Hb] Hhas. unfold join. rewrite Ht, Hb, Hhas. done.
Qed.

(** The worker never leaves the failure flag set without an exception
    object behind it. *)
Lemma step_has_exception_ptr s ev raised s' :
  (hasException s = true -> is_Some (exceptionPtr s)) ->
  step s ev = Some (raised, s') ->
  hasException s' = true -> is_Some (exceptionPtr s').
Proof.
  intros Hinv Hstep.
  destruct ev; simpl in Hstep.
  - by simplify_eq/=.
  - unfold join in Hstep. destruct (bool_decide _ && _); [|done].
    destruct (hasException s) eqn:?; [destruct (exceptionPtr s)|];
      simplify_eq/=; first [done|congruence].
  - by simplify_eq/=.
  - unfold force_join_finish in Hstep. destruct (busy s); by simplify_eq/=.
  - unfold worker_take in Hstep. destruct (worker s) eqn:?; try done.
    destruct (tasks s); [destruct (stopFlag s)|]; by simplify_eq/=.
  - unfold worker_execute in Hstep.
    destruct (worker s) as [|[]| |] eqn:?; simplify_eq/=; eauto.
  - unfold worker_finish in Hstep.
    destruct (worker s) eqn:?; by simplify_eq/=.
Qed.

Lemma run_has_exception_ptr evs : forall s thrown s',
  (hasException s = true -> is_Some (exceptionPtr s)) ->
  run s evs = Some (thrown, s') ->
  hasException s' = true -> is_Some (exceptionPtr s').
Proof.
  induction evs as [|ev evs IH]; intros s thrown s' Hinv; simpl.
  - by intros [= _ <-].
  - destruct (step s ev) as [[raised s1]|] eqn:Hstep; [|done].
    destruct (run s1 evs) as [[thrown1 s2]|] eqn:Hrun; [|done].
    intros [= _ <-]. eapply IH; [|done]. by eapply step_has_exception_ptr.
Qed.

End RunnerProofs.

Module SampleReaderProofs.
Import SampleReader.

Section AsyncDecode.

Variable RGBFrame : Type.
Variable decode_frames : list string -> list Z -> bool -> exception + list RGBFrame.
Variable num_of_file : Z.

Abbreviation async_decode_task := (async_decode_task RGBFrame decode_frames num_of_file).
Abbreviation buffered := (buffered RGBFrame decode_frames num_of_file).

(** A result pushed without a captured failure is ready and carries as
    many frame ids as file paths: [run_rgb_out] refuses any other
    request. *)
Lemma buffered_without_failure (result : DecodeResult RGBFrame) :
  buffered result -> exception_ptr result = None ->
  is_ready result = true /\
  length (file_path_list result) = length (frame_id_list result).
Proof.
  intros (filepaths&frame_ids&bgr&->). unfold SampleReader.async_decode_task, run_rgb_out.
  case_decide as Hlen; [done|].
  destruct (decide (_ > _)); [done|].
  destruct (decode_frames filepaths frame_ids bgr); [done|].
  simpl. intros _. done.
Qed.

(** The loop compares the two pairs of vectors from index [i] on. *)
Lemma validate_from_spec (result : DecodeResult RGBFrame) filepaths frame_ids :
  length (file_path_list result) = length filepaths ->
  length (frame_id_list result) = length frame_ids ->
  length filepaths = length frame_ids ->
  forall (n i : nat),
    (i + n)%nat = length filepaths ->
    validate_from n (Z.of_nat i) result filepaths frame_ids =
    Return (bool_decide (drop i (file_path_list result) = drop i filepaths /\
                         drop i (frame_id_list result) = drop i frame_ids)).
Proof.
  intros Hfp Hid Hboth n. induction n as [|n IH]; intros i Hi; simpl.
  - rewrite !drop_ge by lia. by rewrite bool_decide_eq_true_2.
  - rewrite !at_index_lookup.
    destruct (lookup_lt_is_Some_2 (file_path_list result) i ltac:(lia)) as [rp Hrp].
    destruct (lookup_lt_is_Some_2 filepaths i ltac:(lia)) as [fp Hp].
    destruct (lookup_lt_is_Some_2 (frame_id_list result) i ltac:(lia)) as [ri Hri].
    destruct (lookup_lt_is_Some_2 frame_ids i ltac:(lia)) as [fi Hi'].
    rewrite Hrp, Hp. simpl.
    rewrite (drop_S _ _ _ Hrp), (drop_S _ _ _ Hp), (drop_S _ _ _ Hri), (drop_S _ _ _ Hi').
    case_decide as Hpath.
    { rewrite bool_decide_eq_false_2; [done|]. intros [[= ? _] _]. done. }
    subst rp.
    rewrite Hri, Hi'. simpl.
    case_decide as Hframe.
    { rewrite bool_decide_eq_false_2; [done|]. intros [_ [= ? _]]. done. }
    subst ri.
    replace (Z.of_nat i + 1) with (Z.of_nat (S i)) by lia.
    rewrite IH by lia. f_equal. apply bool_decide_ext.
    split; [intros [-> ->]; done | intros [[= ->] [= ->]]; done].
Qed.

(** On a result with as many frame ids as file paths, [validate_request]
    decides the equality of the two fingerprints. *)
Lemma validate_request_spec (result : DecodeResult RGBFrame) filepaths frame_ids bgr :
  length (file_path_list result) = length (frame_id_list result) ->
  validate_request result filepaths frame_ids bgr =
  Return (bool_decide (file_path_list result = filepaths /\
                       frame_id_list result = frame_ids /\
                       as_bgr result = bgr)).
Proof.
  intros Hwf. unfold validate_request.
  case_decide as Hlen.
  { rewrite bool_decide_eq_false_2; [done|]. intros (<-&<-&_). by destruct Hlen. }
  assert (Hfp : length (file_path_list result) = length filepaths).
  { destruct (decide (length (file_path_list result) = length filepaths)); [done|].
    destruct Hlen. by left. }
  assert (Hid : length (frame_id_list result) = length frame_ids).
  { destruct (decide (length (frame_id_list result) = length frame_ids)); [done|].
    destruct Hlen. by right. }
  case_decide as Hbgr.
  { rewrite bool_decide_eq_false_2; [done|]. by intros (_&_&?). }
  pose proof (validate_from_spec result filepaths frame_ids Hfp Hid ltac:(congruence)
                (length filepaths) 0%nat eq_refl) as Hloop.
  change (Z.of_nat 0) with 0 in Hloop. rewrite Hloop.
  f_equal. apply bool_decide_ext. simpl. tauto.
Qed.

(** With a frame id for every file path, [generate_request_key] returns
    a key. *)
Lemma request_key_from_returns filepaths frame_ids :
  (length filepaths <= length frame_ids)%nat ->
  forall (n i : nat) oss,
    (i + n)%nat = length filepaths ->
    exists key, request_key_from n (Z.of_nat i) filepaths frame_ids oss = Return key.
Proof.
  intros Hle n. induction n as [|n IH]; intros i oss Hi; [by eexists|].
  cbn [request_key_from]. rewrite !at_index_lookup.
  destruct (lookup_lt_is_Some_2 filepaths i ltac:(lia)) as [path ->].
  destruct (lookup_lt_is_Some_2 frame_ids i ltac:(lia)) as [id ->].
  cbn [mbind outcome_bind].
  replace (Z.of_nat i + 1) with (Z.of_nat (S i)) by lia.
  apply IH. lia.
Qed.

Lemma generate_request_key_returns filepaths frame_ids bgr :
  (length filepaths <= length frame_ids)%nat ->
  exists key, generate_request_key filepaths frame_ids bgr = Return key.
Proof.
  intros Hle. unfold generate_request_key.
  apply (request_key_from_returns filepaths frame_ids Hle (length filepaths) 0%nat).
  done.
Qed.

(** With fewer frame ids than file paths, the loop of
    [generate_request_key] reads [frame_ids] past its end. *)
Lemma request_key_from_short filepaths frame_ids :
  (length frame_ids < length filepaths)%nat ->
  forall (n i : nat) oss,
    (i + n)%nat = length filepaths -> (i <= length frame_ids)%nat ->
    request_key_from n (Z.of_nat i) filepaths frame_ids oss = Undefined.
Proof.
  intros Hlt n. induction n as [|n IH]; intros i oss Hi Hbelow; [lia|].
  cbn [request_key_from]. rewrite !at_index_lookup.
  destruct (lookup_lt_is_Some_2 filepaths i ltac:(lia)) as [path ->].
  cbn [mbind outcome_bind].
  destruct (frame_ids !! i) as [id|] eqn:Hid; [|done].
  apply lookup_lt_Some in Hid.
  replace (Z.of_nat i + 1) with (Z.of_nat (S i)) by lia.
  apply IH; lia.
Qed.

Lemma generate_request_key_short filepaths frame_ids bgr :
  (length frame_ids < length filepaths)%nat ->
  generate_request_key filepaths frame_ids bgr = Undefined.
Proof.
  intros Hlt. unfold generate_request_key.
  apply (request_key_from_short filepaths frame_ids Hlt (length filepaths) 0%nat); lia.
Qed.

(** Popping a result without a captured failure, for a request with a
    frame id for every file path: the frames when the fingerprints are
    equal, the mismatch error with both keys when they are not. *)
Lemma get_buffer_in_bounds (s : async_state RGBFrame) result queue'
    filepaths frame_ids bgr :
  decode_result_queue s = result :: queue' ->
  is_ready result = true ->
  exception_ptr result = None ->
  length (file_path_list result) = length (frame_id_list result) ->
  (length filepaths <= length frame_ids)%nat ->
  exists expected got,
    generate_request_key filepaths frame_ids bgr = Return expected /\
    generate_request_key (file_path_list result) (frame_id_list result) (as_bgr result)
      = Return got /\
    DecodeN12ToRGBAsyncGetBuffer s filepaths frame_ids bgr =
      Some (if bool_decide ((filepaths, frame_ids, bgr) =
                            (file_path_list result, frame_id_list result, as_bgr result))
            then Return (decoded_frames result)
            else Throw (request_mismatch expected got),
            AsyncState (has_pending_task s) queue').
Proof.
  intros Hqueue Hready Hnone Hwf Hle.
  destruct (generate_request_key_returns filepaths frame_ids bgr Hle) as [expected Hexp].
  destruct (generate_request_key_returns (file_path_list result) (frame_id_list result)
              (as_bgr result) ltac:(lia)) as [got Hgot].
  exists expected, got. split; [done|]. split; [done|].
  unfold DecodeN12ToRGBAsyncGetBuffer.
  rewrite Hqueue, Hready, Hnone, (validate_request_spec _ _ _ _ Hwf).
  rewrite andb_false_r. cbn [negb].
  destruct (decide ((filepaths, frame_ids, bgr) =
                    (file_path_list result, frame_id_list result, as_bgr result)))
    as [Heq|Hne].
  - injection Heq as -> -> ->. rewrite !bool_decide_eq_true_2; done.
  - rewrite (bool_decide_eq_false_2 _ Hne).
    rewrite bool_decide_eq_false_2; [|by intros (<-&<-&<-)].
    by rewrite Hexp, Hgot.
Qed.

(** C6. For a buffered result that carries no captured failure and a
    request with fewer frame ids than file paths (so one whose
    fingerprint differs from the stored one),
    [DecodeN12ToRGBAsyncGetBuffer] does not fail with the mismatch error:
    [validate_request] refuses the request, and [generate_request_key],
    called to build the message, reads [frame_ids] past its end. *)
Theorem get_buffer_reads_past_frame_ids (s : async_state RGBFrame) result queue'
    filepaths frame_ids bgr :
  decode_result_queue s = result :: queue' ->
  buffered result ->
  exception_ptr result = None ->
  (length frame_ids < length filepaths)%nat ->
  (filepaths, frame_ids, bgr) <>
    (file_path_list result, frame_id_list result, as_bgr result) /\
  validate_request result filepaths frame_ids bgr = Return false /\
  DecodeN12ToRGBAsyncGetBuffer s filepaths frame_ids bgr =
    Some (Undefined, AsyncState (has_pending_task s) queue').
Proof.
  intros Hqueue Hbuf Hnone Hlt.
  destruct (buffered_without_failure result Hbuf Hnone) as [Hready Hwf].
  assert (Hne : (filepaths, frame_ids, bgr) <>
                (file_path_list result, frame_id_list result, as_bgr result)).
  { intros [= -> -> ->]. lia. }
  assert (Hval : validate_request result filepaths frame_ids bgr = Return false).
  { rewrite (validate_request_spec _ _ _ _ Hwf).
    rewrite bool_decide_eq_false_2; [done|]. intros (<-&<-&_). lia. }
  split; [done|]. split; [done|].
  unfold DecodeN12ToRGBAsyncGetBuffer.
  rewrite Hqueue, Hready, Hnone, Hval, andb_false_r. cbn [negb].
  by rewrite (generate_request_key_short _ _ _ Hlt).
Qed.

End AsyncDecode.

Lemma get_buffer_reads_past_frame_ids_witness :
  (["A"; "B"]%string, [0], false) <>
    (file_path_list Samples.buffered_result, frame_id_list Samples.buffered_result,
     as_bgr Samples.buffered_result) /\
  validate_request Samples.buffered_result ["A"; "B"]%string [0] false = Return false /\
  DecodeN12ToRGBAsyncGetBuffer (AsyncState false [Samples.buffered_result])
    ["A"; "B"]%string [0] false = Some (Undefined, AsyncState false []).
Proof.
  assert (Hbuffered : buffered Z Samples.decode_ids 2 Samples.buffered_result).
  { exists ["A"; "B"]%string, [0; 10], false. reflexivity. }
  apply (get_buffer_reads_past_frame_ids Z Samples.decode_ids 2
           (AsyncState false [Samples.buffered_result]) Samples.buffered_result []
           ["A"; "B"]%string [0] false eq_refl Hbuffered eq_refl).
  simpl. lia.
Defined.

(** [validate_request] alone compares frame ids only as far as there are
    file paths; the worker never buffers such a result without a failure
    (see [buffered_without_failure]). *)
Remark validate_request_compares_up_to_paths :
  validate_request (Result ([] : list Z) ["A"%string] [0; 10] false true None)
    ["A"%string] [0; 11] false = Return true.
Proof. reflexivity. Qed.

End SampleReaderProofs.

(** ** Further properties of the GOP index builder *)

Module GopIndexMore.
Import Classifier GopIndex.

(** *** The maps of a variable-frame-rate stream *)

Lemma visit_frame2pts_vfr i entry st :
  frame2pts (visit true i entry st) = <[i := entry.1]> (frame2pts st).
Proof. unfold visit. by destruct (entry.2). Qed.

Lemma visit_pts2frame_vfr i entry st :
  pts2frame (visit true i entry st) = <[entry.1 := i]> (pts2frame st).
Proof. unfold visit. by destruct (entry.2). Qed.

Lemma walk_frame2pts_new pairs : forall i st (n : nat) entry,
  pairs !! n = Some entry ->
  frame2pts (walk true pairs i st).2 !! (i + Z.of_nat n) = Some entry.1.
Proof.
  assert (Hkeep : forall pairs i st j, j < i ->
            frame2pts (walk true pairs i st).2 !! j = frame2pts st !! j).
  { clear. induction pairs as [|e pairs IH]; intros i st j Hj; simpl; [done|].
    rewrite IH by lia. rewrite visit_frame2pts_vfr. apply lookup_insert_ne. lia. }
  induction pairs as [|e pairs IH]; intros i st n entry Hn; [done|].
  change (walk true (e :: pairs) i st) with (walk true pairs (i + 1) (visit true i e st)).
  destruct n as [|n].
  - injection Hn as ->. rewrite Hkeep by lia.
    rewrite visit_frame2pts_vfr, Z.add_0_r. apply lookup_insert_eq.
  - replace (i + Z.of_nat (S n)) with (i + 1 + Z.of_nat n) by lia.
    by apply IH.
Qed.

Lemma walk_frame2pts_old pairs : forall i st j,
  ~ (i <= j < i + Z.of_nat (length pairs)) ->
  frame2pts (walk true pairs i st).2 !! j = frame2pts st !! j.
Proof.
  induction pairs as [|e pairs IH]; intros i st j Hj; simpl in *; [done|].
  rewrite IH by lia. rewrite visit_frame2pts_vfr. apply lookup_insert_ne. lia.
Qed.

(** A timestamp is mapped to the last index that carries it. *)
Lemma walk_pts2frame_new pairs : forall i st (n : nat) entry,
  pairs !! n = Some entry ->
  exists (m : nat) entry',
    pts2frame (walk true pairs i st).2 !! entry.1 = Some (i + Z.of_nat m) /\
    (n <= m)%nat /\ pairs !! m = Some entry' /\ entry'.1 = entry.1.
Proof.
  assert (Hlate : forall pairs i st ts j,
            pts2frame st !! ts = Some j ->
            pts2frame (walk true pairs i st).2 !! ts = Some j \/
            exists (m : nat) entry',
              pts2frame (walk true pairs i st).2 !! ts = Some (i + Z.of_nat m) /\
              pairs !! m = Some entry' /\ entry'.1 = ts).
  { clear. induction pairs as [|e pairs IH]; intros i st ts j Hj; simpl; [by left|].
    destruct (decide (e.1 = ts)) as [<-|Hne].
    - right. destruct (IH (i + 1) (visit true i e st) e.1 i) as [Hsame|(m&e'&Hm&He'&Hts)].
      { rewrite visit_pts2frame_vfr. apply lookup_insert_eq. }
      + exists 0%nat, e. rewrite Z.add_0_r. done.
      + exists (S m), e'. split; [|done]. rewrite Hm. f_equal. lia.
    - destruct (IH (i + 1) (visit true i e st) ts j) as [Hsame|(m&e'&Hm&He'&Hts)].
      { rewrite visit_pts2frame_vfr. by rewrite lookup_insert_ne. }
      + by left.
      + right. exists (S m), e'. split; [|done]. rewrite Hm. f_equal. lia. }
  induction pairs as [|e pairs IH]; intros i st n entry Hn; [done|].
  destruct n as [|n]; simpl in *.
  - injection Hn as ->.
    destruct (Hlate pairs (i + 1) (visit true i entry st) entry.1 i)
      as [Hsame|(m&e'&Hm&He'&Hts)].
    { rewrite visit_pts2frame_vfr. apply lookup_insert_eq. }
    + exists 0%nat, entry. rewrite Z.add_0_r. done.
    + exists (S m), e'. split_and!; [|lia|done|done]. rewrite Hm. f_equal. lia.
  - destruct (IH (i + 1) (visit true i e st) n entry Hn) as (m&e'&Hm&Hle&He'&Hts).
    exists (S m), e'. split_and!; [|lia|done|done]. rewrite Hm. f_equal. lia.
Qed.

Lemma walk_pts2frame_origin pairs : forall i st ts j,
  pts2frame (walk true pairs i st).2 !! ts = Some j ->
  pts2frame st !! ts = Some j \/
  exists (m : nat) entry, j = i + Z.of_nat m /\ pairs !! m = Some entry /\ entry.1 = ts.
Proof.
  induction pairs as [|e pairs IH]; intros i st ts j; simpl; [by left|].
  intros [Hold|(m&e'&->&He'&Hts)]%IH.
  - rewrite visit_pts2frame_vfr in Hold.
    destruct (decide (e.1 = ts)) as [<-|Hne].
    + rewrite lookup_insert_eq in Hold. injection Hold as <-.
      right. exists 0%nat, e. split_and!; [lia|done|done].
    + rewrite lookup_insert_ne in Hold by done. by left.
  - right. exists (S m), e'. split_and!; [lia|done|done].
Qed.

Lemma parse_gop_start_idx_vfr_maps demuxer f2p p2f pairs :
  demux_pass (GetVideoCodec demuxer) (packets demuxer) = Return pairs ->
  exists table,
    parse_gop_start_idx demuxer f2p p2f true =
    Return (table,
            frame2pts (walk true (sort_by_pts pairs) 0 (IndexState [] f2p p2f)).2,
            pts2frame (walk true (sort_by_pts pairs) 0 (IndexState [] f2p p2f)).2).
Proof.
  intros Hpass. unfold parse_gop_start_idx. rewrite Hpass. simpl.
  destruct (walk true (sort_by_pts pairs) 0 (IndexState [] f2p p2f)) as [idx st].
  simpl. case_decide as Hlen.
  - rewrite length_app in Hlen. simpl in Hlen. lia.
  - eauto.
Qed.



(** X2. Starting from empty maps, the two maps of a variable-frame-rate
    stream agree with each other and hold nothing else: every entry of
    [pts2frame] is the inverse of an entry of [frame2pts], and [frame2pts] is
    defined on the frame indices 0 .. N-1 only. *)
Theorem parse_gop_start_idx_vfr_maps_agree demuxer pairs table f2p' p2f' :
  demux_pass (GetVideoCodec demuxer) (packets demuxer) = Return pairs ->
  parse_gop_start_idx demuxer ∅ ∅ true = Return (table, f2p', p2f') ->
  (forall ts j, p2f' !! ts = Some j -> f2p' !! j = Some ts) /\
  (forall j, is_Some (f2p' !! j) <-> 0 <= j < Z.of_nat (length pairs)).
Proof.
  intros Hpass Hparse.
  destruct (parse_gop_start_idx_vfr_maps demuxer ∅ ∅ pairs Hpass) as [table' Hret].
  rewrite Hret in Hparse. injection Hparse as _ <- <-.
  split.
  - intros ts j [Hold|(m&entry&->&Hm&<-)]%walk_pts2frame_origin; [done|].
    apply (walk_frame2pts_new _ 0 _ m entry Hm).
  - intros j. rewrite <- (GopIndexProofs.sort_by_pts_length pairs). split.
    + intros Hsome. destruct (decide (0 <= j < Z.of_nat (length (sort_by_pts pairs))));
        [done|].
      rewrite walk_frame2pts_old in Hsome by lia. simpl in Hsome.
      rewrite lookup_empty in Hsome. by destruct Hsome.
    + intros Hj.
      destruct (lookup_lt_is_Some_2 (sort_by_pts pairs) (Z.to_nat j) ltac:(lia))
        as [entry Hentry].
      exists entry.1. pose proof (walk_frame2pts_new _ 0 (IndexState [] ∅ ∅) _ _ Hentry) as H.
      by replace (0 + Z.of_nat (Z.to_nat j)) with j in H by lia.
Qed.

Lemma parse_gop_start_idx_vfr_maps_agree_witness :
  (forall ts j,
     ({[0 := 0; 1 := 1]} : gmap Z Z) !! ts = Some j ->
     ({[0 := 0; 1 := 1]} : gmap Z Z) !! j = Some ts) /\
  (forall j, is_Some (({[0 := 0; 1 := 1]} : gmap Z Z) !! j) <-> 0 <= j < 2).
Proof.
  apply (parse_gop_start_idx_vfr_maps_agree Samples.late_key_frame
           [(0, false); (1, true)] [1; 2]).
  - reflexivity.
  - vm_compute. reflexivity.
Defined.

End GopIndexMore.

Module GopIndexErrors.
Import Classifier GopIndex GopIndexSpec.

Lemma demux_pass_throw_origin codec_id pending e :
  demux_pass codec_id pending = Throw e ->
  (e = demux_error /\
   exists r, r ∈ pending /\ ret r = false /\ nVideoBytes r <> 0) \/
  (e = unsupported_codec codec_id /\ supported codec_id = false /\
   exists r, r ∈ pending /\ ret r = true /\ nVideoBytes r <> 0 /\ is_Some (pVideo r)).
Proof.
  induction pending as [|r pending IH]; simpl; [done|].
  case_decide as Hbytes; [done|].
  destruct (ret r) eqn:Hret.
  - destruct (iskeyFrame codec_id (pVideo r) (flags r)) as [k|e'|] eqn:Hkey; simpl.
    + destruct (demux_pass codec_id pending) as [rest|e'|]; simpl; try done.
      intros [= <-].
      destruct (IH eq_refl) as [(->&r'&?&?&?)|(->&?&r'&?&?&?&?)].
      * left. split; [done|]. exists r'. split_and!; [by apply list_elem_of_further|done..].
      * right. split_and!; [done..|]. exists r'.
        split_and!; [by apply list_elem_of_further|done..].
    + intros [= <-]. right.
      pose proof (GopIndexProofs.iskeyFrame_throws _ _ _ _ Hkey) as ->.
      split; [done|].
      destruct (pVideo r) as [p|] eqn:Hp; [|done].
      split.
      * destruct codec_id; try done; simpl in Hkey.
        -- unfold nal_header_byte, byte_at, at_index in Hkey.
           repeat (case_decide || case_match || simplify_eq/=); done.
        -- unfold nal_header_byte, byte_at, at_index in Hkey.
           repeat (case_decide || case_match || simplify_eq/=); done.
        -- unfold byte_at, at_index in Hkey.
           repeat (case_decide || case_match || simplify_eq/=); done.
      * exists r. rewrite Hp. split_and!; [apply list_elem_of_here|done..|eauto].
    + done.
  - intros [= <-]. left. split; [done|].
    exists r. split_and!; [apply list_elem_of_here|done..].
Qed.

(** X3. [parse_gop_start_idx] has two ways to fail and no other: the
    invalid-argument "Demux error", which needs a failed [Demux] call that
    delivered bytes, and the domain error of an unsupported codec, which
    needs a successful call with a non-null packet.  In particular it never
    throws [std::out_of_range]. *)
Theorem parse_gop_start_idx_failures demuxer f2p p2f isVFR e :
  parse_gop_start_idx demuxer f2p p2f isVFR = Throw e ->
  (e = demux_error /\ kind e = std_invalid_argument /\
   exists r, r ∈ packets demuxer /\ ret r = false /\ nVideoBytes r <> 0) \/
  (e = unsupported_codec (GetVideoCodec demuxer) /\ kind e = std_domain_error /\
   supported (GetVideoCodec demuxer) = false /\
   exists r, r ∈ packets demuxer /\ ret r = true /\ nVideoBytes r <> 0 /\
             is_Some (pVideo r)).
Proof.
  intros Hthrow.
  destruct (demux_pass (GetVideoCodec demuxer) (packets demuxer)) as [pairs|e'|] eqn:Hpass.
  - destruct (GopIndexProofs.parse_gop_start_idx_returns demuxer f2p p2f isVFR pairs Hpass)
      as (?&?&Hret&_). congruence.
  - unfold parse_gop_start_idx in Hthrow. rewrite Hpass in Hthrow. simpl in Hthrow.
    injection Hthrow as ->.
    destruct (demux_pass_throw_origin _ _ _ Hpass) as [(->&?)|(->&?&?)].
    + by left.
    + right. done.
  - unfold parse_gop_start_idx in Hthrow. rewrite Hpass in Hthrow. done.
Qed.

Lemma parse_gop_start_idx_failures_witness :
  (demux_error = demux_error /\ kind demux_error = std_invalid_argument /\
   exists r, r ∈ packets broken_stream /\ ret r = false /\ nVideoBytes r <> 0) \/
  (demux_error = unsupported_codec (GetVideoCodec broken_stream) /\
   kind demux_error = std_domain_error /\
   supported (GetVideoCodec broken_stream) = false /\
   exists r, r ∈ packets broken_stream /\ ret r = true /\ nVideoBytes r <> 0 /\
             is_Some (pVideo r)).
Proof.
  apply (parse_gop_start_idx_failures broken_stream ∅ ∅ false demux_error).
  reflexivity.
Defined.

Lemma iskeyFrame_readable codec_id r :
  supported codec_id = true -> readable r ->
  exists k, iskeyFrame codec_id (pVideo r) (flags r) = Return k.
Proof.
  unfold readable, iskeyFrame. intros Hcodec Hread.
  destruct (pVideo r) as [p|]; [|eauto].
  destruct p as [|b0 [|b1 [|b2 [|b3 [|b4 p]]]]]; simpl in Hread; try lia.
  destruct codec_id; try done; unfold nal_header_byte, byte_at; simpl.
  - case_decide; simpl; eauto.
  - case_decide; simpl; eauto.
  - eauto.
Qed.

(** X4. For a supported codec, when every [Demux] call succeeds and every
    packet handed over is null or at least five bytes long,
    [parse_gop_start_idx] returns a table: it neither throws nor reads
    outside a packet. *)
Theorem parse_gop_start_idx_total demuxer f2p p2f isVFR :
  supported (GetVideoCodec demuxer) = true ->
  Forall (fun r => ret r = true /\ readable r) (packets demuxer) ->
  exists table f2p' p2f',
    parse_gop_start_idx demuxer f2p p2f isVFR = Return (table, f2p', p2f') /\
    (length table <= S (length (packets demuxer)))%nat.
Proof.
  intros Hcodec Hall.
  assert (Hpass : exists pairs,
             demux_pass (GetVideoCodec demuxer) (packets demuxer) = Return pairs /\
             (length pairs <= length (packets demuxer))%nat).
  { induction Hall as [|r pending [Hret Hread] Hall (pairs&IH&Hlen)]; simpl; [eauto|].
    case_decide; [exists []; split; [done|simpl; lia]|]. rewrite Hret.
    destruct (iskeyFrame_readable _ r Hcodec Hread) as [k ->]. simpl.
    rewrite IH. simpl. eexists. split; [done|]. simpl. lia. }
  destruct Hpass as (pairs&Hpass&Hlen).
  destruct (GopIndexProofs.parse_gop_start_idx_returns demuxer f2p p2f isVFR pairs Hpass)
    as (f2p'&p2f'&Hret&_).
  eexists _, f2p', p2f'. split; [done|].
  rewrite length_app. simpl.
  assert (length (key_offsets 0 (sort_by_pts pairs).*2) <= length pairs)%nat; [|lia].
  rewrite <- (GopIndexProofs.sort_by_pts_length pairs), <- (length_fmap snd).
  generalize ((sort_by_pts pairs).*2) 0. clear.
  induction l as [|b l IH]; intros i; simpl; [lia|].
  rewrite length_app. specialize (IH (i + 1)). destruct b; simpl; lia.
Qed.

Lemma parse_gop_start_idx_total_witness :
  exists table f2p' p2f',
    parse_gop_start_idx Samples.ten_frames ∅ ∅ true = Return (table, f2p', p2f') /\
    (length table <= 11)%nat.
Proof.
  apply (parse_gop_start_idx_total Samples.ten_frames ∅ ∅ true).
  - reflexivity.
  - repeat constructor; simpl; lia.
Defined.

End GopIndexErrors.

Module GopLengthProofs.
Import Classifier GopIndex GopIndexSpec.

(** X5. On a strictly increasing table, when the requests end below the
    last boundary but the first request lies before the first boundary,
    [parse_gop_length] throws [std::out_of_range] for that request ("Can
    not find a gop for frame"): no GOP is made up for frames that precede
    the first key frame. *)
Theorem parse_gop_length_before_first_boundary table ids first_frame_ids
    first_boundary last_boundary first_id last_id :
  StronglySorted Z.lt table ->
  head table = Some first_boundary ->
  last table = Some last_boundary ->
  head ids = Some first_id ->
  last ids = Some last_id ->
  last_id < last_boundary ->
  first_id < first_boundary ->
  parse_gop_length table ids first_frame_ids =
    Some (Throw (no_gop_for_frame first_id first_boundary)) /\
  kind (no_gop_for_frame first_id first_boundary) = std_out_of_range.
Proof.
  intros _ Htable Hlast Hids Hid Hend Hlow. split; [|done].
  unfold parse_gop_length, back. rewrite Hid, Hlast.
  rewrite decide_False by lia.
  destruct ids as [|x ids]; [done|]. injection Hids as ->.
  destruct table as [|a table]; [done|]. injection Htable as ->.
  change (length (first_id :: ids)) with (S (length ids)).
  cbn [parse_gop_length_loop]. rewrite decide_False by (simpl; lia).
  change (at_index (first_id :: ids) 0) with (Return (A:=Z) first_id). cbv beta iota.
  cbn [upper_bound]. rewrite (decide_True (P := first_id < first_boundary)) by done.
  change (at_index (first_boundary :: table) 0) with (Return (A:=Z) first_boundary).
  cbv beta iota. by rewrite decide_True.
Qed.

Lemma parse_gop_length_before_first_boundary_witness :
  parse_gop_length [1; 2] [0; 1] [] = Some (Throw (no_gop_for_frame 0 1)) /\
  kind (no_gop_for_frame 0 1) = std_out_of_range.
Proof.
  apply (parse_gop_length_before_first_boundary [1; 2] [0; 1] [] 1 2 0 1);
    first [reflexivity|lia|repeat constructor; lia].
Defined.

Section Requests.

Variable table : list Z.
Variable ids : list Z.
Variables first_boundary last_boundary : Z.
Hypothesis table_sorted : StronglySorted Z.lt table.
Hypothesis table_head : head table = Some first_boundary.
Hypothesis table_last : last table = Some last_boundary.
Hypothesis ids_sorted : Sorted Z.le ids.
Hypothesis ids_in_range : Forall (fun x => first_boundary <= x < last_boundary) ids.

(** What the loop adds from offset [i] on: GOPs of the table, in strictly
    increasing order, each holding a request, and together holding every
    request from [i] on. *)
Lemma parse_gop_length_loop_correct : forall fuel (i : nat) lens firsts lens' firsts',
  (i <= length ids)%nat ->
  parse_gop_length_loop fuel table ids (Z.of_nat i) lens firsts =
    Some (Return (lens', firsts')) ->
  exists L F,
    lens' = lens ++ L /\ firsts' = firsts ++ F /\
    Forall2 (fun f l => gop_of table f l /\
                        exists (j : nat) x, (i <= j)%nat /\ ids !! j = Some x /\ f <= x < f + l)
            F L /\
    StronglySorted Z.lt F /\
    (forall (j : nat) x, (i <= j)%nat -> ids !! j = Some x ->
       exists (n : nat) f l, F !! n = Some f /\ L !! n = Some l /\ f <= x < f + l).
Proof.
  pose proof table_head as Hhead. rewrite head_lookup in Hhead.
  pose proof table_last as Hlast. rewrite last_lookup in Hlast.
  induction fuel as [|fuel IH]; intros i lens firsts lens' firsts' Hi; simpl.
  - case_decide as Hend; [|done]. intros [= <- <-].
    exists [], []. rewrite !app_nil_r. split_and!; [done|done|constructor|constructor|].
    intros j x Hj Hx. apply lookup_lt_Some in Hx. lia.
  - case_decide as Hend.
    { intros [= <- <-].
      exists [], []. rewrite !app_nil_r. split_and!; [done|done|constructor|constructor|].
      intros j x Hj Hx. apply lookup_lt_Some in Hx. lia. }
    rewrite at_index_lookup.
    destruct (lookup_lt_is_Some_2 ids i ltac:(lia)) as [x0 Hx0]. rewrite Hx0.
    assert (Hx0r : first_boundary <= x0 < last_boundary).
    { pose proof ids_in_range as Hr. rewrite Forall_forall in Hr.
      apply Hr. by eapply list_elem_of_lookup_2. }
    destruct (upper_bound_spec table x0) as (n&->&Hn&Hle&Hgt).
    assert (Hn0 : n <> 0%nat).
    { intros ->. pose proof (Hgt _ Hhead). lia. }
    assert (Hnlen : (n < length table)%nat).
    { destruct (decide (n < length table)%nat); [done|].
      assert (0 < length table)%nat by (by eapply lookup_lt_Some).
      pose proof (Hle _ _ Hlast ltac:(lia)). lia. }
    rewrite at_index_lookup.
    destruct (lookup_lt_is_Some_2 table n Hnlen) as [next Hnext]. rewrite Hnext.
    rewrite decide_False by lia.
    destruct n as [|m]; [done|].
    replace (Z.of_nat (S m) - 1) with (Z.of_nat m) by lia.
    rewrite at_index_lookup.
    destruct (lookup_lt_is_Some_2 table m ltac:(lia)) as [prev Hprev]. rewrite Hprev.
    pose proof (Hle m prev Hprev ltac:(lia)) as Hprev_le.
    pose proof (Hgt next Hnext) as Hnext_gt.
    destruct (lower_bound_spec ids next) as (i'&->&Hi'&Hbelow&Habove).
    assert (Hadv : (i < i')%nat).
    { destruct (decide (i < i')%nat); [done|].
      destruct (lookup_lt_is_Some_2 ids i' ltac:(lia)) as [y Hy].
      pose proof (Habove _ Hy).
      pose proof (GopIndexProofs.sorted_le_lookup ids i' i y x0 ids_sorted Hy Hx0
                    ltac:(lia)). lia. }
    assert (Hlater : forall (j : nat) x, (i' <= j)%nat -> ids !! j = Some x -> next <= x).
    { intros j x Hj Hx.
      destruct (lookup_lt_is_Some_2 ids i') as [y Hy].
      { apply lookup_lt_Some in Hx. lia. }
      pose proof (Habove _ Hy).
      pose proof (GopIndexProofs.sorted_le_lookup ids i' j y x ids_sorted Hy Hx Hj). lia. }
    intros Hloop.
    destruct (IH i' _ _ _ _ Hi' Hloop) as (L&F&->&->&Hgops&Hsorted&Hcover).
    exists ((next - prev) :: L), (prev :: F).
    rewrite <- !app_assoc. simpl. split_and!; [done|done| | |].
    + constructor.
      * split.
        -- exists m. split; [done|]. by replace (prev + (next - prev)) with next by lia.
        -- exists i, x0. split_and!; [lia|done|lia|lia].
      * eapply Forall2_impl; [exact Hgops|].
        intros f l [Hgop (j&x&Hj&Hx&Hfx)]. split; [done|].
        exists j, x. split_and!; [lia|done|lia|lia].
    + constructor; [done|].
      apply Forall_forall. intros f Hf.
      apply list_elem_of_lookup in Hf as [k Hk].
      destruct (Forall2_lookup_l _ _ _ _ _ Hgops Hk) as (l&Hl&[(k'&Hk'&HSk') (j&x&Hj&Hx&Hfx)]).
      pose proof (Hlater j x Hj Hx).
      destruct (decide (S m <= k')%nat) as [Hkk|Hkk].
      * pose proof (sorted_lookup_le table (S m) k' next f table_sorted Hnext Hk' Hkk). lia.
      * pose proof (sorted_lookup_le table (S k') (S m) (f + l) next table_sorted HSk' Hnext
                      ltac:(lia)). lia.
    + intros j x Hj Hx.
      destruct (decide (i' <= j)%nat) as [Hjj|Hjj].
      * destruct (Hcover j x Hjj Hx) as (k&f&l&?&?&?).
        exists (S k), f, l. done.
      * exists 0%nat, prev, (next - prev). split_and!; [done|done| |].
        -- pose proof (GopIndexProofs.sorted_le_lookup ids i j x0 x ids_sorted Hx0 Hx Hj). lia.
        -- pose proof (Hbelow j x Hx ltac:(lia)). lia.
Qed.

(** X6. For a strictly increasing table and a non-empty sorted list of
    requests between its first and last boundary, [parse_gop_length] returns
    one (first frame, length) pair per GOP that holds a request: every pair
    is a GOP of the table, the first frames are strictly increasing (no GOP
    twice), every request lies in one of the GOPs and every GOP holds a
    request.  The first frames are appended to what [first_frame_ids]
    held. *)
Theorem parse_gop_length_correct first_frame_ids :
  ids <> [] ->
  exists L F,
    parse_gop_length table ids first_frame_ids = Some (Return (L, first_frame_ids ++ F)) /\
    Forall2 (gop_of table) F L /\
    StronglySorted Z.lt F /\
    (forall x, x ∈ ids ->
       exists (n : nat) f l, F !! n = Some f /\ L !! n = Some l /\ f <= x < f + l) /\
    (forall (n : nat) f l, F !! n = Some f -> L !! n = Some l ->
       exists x, x ∈ ids /\ f <= x < f + l).
Proof.
  intros Hne.
  destruct (GopIndexProofs.parse_gop_length_returns table ids first_frame_ids
              first_boundary last_boundary table_sorted table_head table_last
              ids_sorted Hne ids_in_range) as (lens'&firsts'&Hret).
  pose proof Hret as Hloop. unfold parse_gop_length, back in Hloop.
  destruct (last ids) as [last_id|]; [|by destruct (last table)].
  rewrite table_last in Hloop.
  case_decide; [done|].
  destruct (parse_gop_length_loop_correct _ 0%nat _ _ _ _ ltac:(lia) Hloop)
    as (L&F&->&->&Hgops&Hsorted&Hcover).
  exists L, F. rewrite Hret. split_and!; [done| |done| |].
  - eapply Forall2_impl; [exact Hgops|]. by intros f l [? _].
  - intros x [j Hj]%list_elem_of_lookup. apply (Hcover j x); [lia|done].
  - intros n f l Hf Hl.
    destruct (Forall2_lookup_lr _ _ _ _ _ _ Hgops Hf Hl) as [_ (j&x&_&Hx&Hfx)].
    exists x. split; [by eapply list_elem_of_lookup_2|done].
Qed.

End Requests.

Lemma parse_gop_length_correct_witness :
  exists L F,
    parse_gop_length [0; 4; 8; 10] [1; 2; 9] [7] = Some (Return (L, [7] ++ F)) /\
    Forall2 (gop_of [0; 4; 8; 10]) F L /\
    StronglySorted Z.lt F /\
    (forall x, x ∈ [1; 2; 9] ->
       exists (n : nat) f l, F !! n = Some f /\ L !! n = Some l /\ f <= x < f + l) /\
    (forall (n : nat) f l, F !! n = Some f -> L !! n = Some l ->
       exists x, x ∈ [1; 2; 9] /\ f <= x < f + l).
Proof.
  apply (parse_gop_length_correct [0; 4; 8; 10] [1; 2; 9] 0 10).
  - repeat constructor; lia.
  - reflexivity.
  - reflexivity.
  - repeat constructor; lia.
  - repeat constructor; lia.
  - discriminate.
Defined.

End GopLengthProofs.

Module GopDemuxerMoreProofs.
Import Classifier GopIndex GopDemuxer GopDemuxerMore.

(** *** [getNextKeyFrameId] *)

(** X7. On a strictly increasing table, [getNextKeyFrameId] throws
    [std::invalid_argument] for a frame id below the first entry, returns
    the smallest entry above the frame id when there is one, and returns the
    last entry, which is not above the frame id, when there is none. *)
Theorem getNextKeyFrameId_spec key_frame_ids first_key last_key frame_id :
  StronglySorted Z.lt key_frame_ids ->
  head key_frame_ids = Some first_key ->
  last key_frame_ids = Some last_key ->
  (frame_id < first_key ->
     getNextKeyFrameId key_frame_ids frame_id = Throw (no_gop_before frame_id first_key)) /\
  (first_key <= frame_id < last_key ->
     exists next,
       getNextKeyFrameId key_frame_ids frame_id = Return next /\
       next ∈ key_frame_ids /\ frame_id < next /\
       forall key, key ∈ key_frame_ids -> frame_id < key -> next <= key) /\
  (last_key <= frame_id ->
     getNextKeyFrameId key_frame_ids frame_id = Return last_key).
Proof.
  intros Hsorted Hhead Hlast.
  pose proof Hlast as Hback.
  rewrite head_lookup in Hhead. rewrite last_lookup in Hlast.
  assert (Hlen : (0 < length key_frame_ids)%nat) by (by eapply lookup_lt_Some).
  destruct (upper_bound_spec key_frame_ids frame_id) as (n&Hn&Hnlen&Hle&Hgt).
  unfold getNextKeyFrameId. rewrite Hn.
  split_and!.
  - intros Hlow.
    assert (n = 0%nat) as ->.
    { destruct n; [done|]. pose proof (Hle 0%nat first_key Hhead ltac:(lia)). lia. }
    rewrite decide_True by done. rewrite at_index_lookup, Hhead. done.
  - intros [Hlo Hhi].
    assert (n <> 0%nat).
    { intros ->. pose proof (Hgt _ Hhead). lia. }
    assert (n < length key_frame_ids)%nat.
    { destruct (decide (n < length key_frame_ids)%nat); [done|].
      pose proof (Hle _ _ Hlast ltac:(lia)). lia. }
    rewrite decide_False by lia. rewrite decide_False by lia.
    rewrite at_index_lookup.
    destruct (lookup_lt_is_Some_2 key_frame_ids n ltac:(done)) as [next Hnext].
    rewrite Hnext. exists next.
    split_and!; [done|by eapply list_elem_of_lookup_2|by apply Hgt|].
    intros key [j Hj]%list_elem_of_lookup Hkey.
    destruct (decide (n <= j)%nat).
    + by eapply (sorted_lookup_le key_frame_ids n j).
    + pose proof (Hle j key Hj ltac:(lia)). lia.
  - intros Hhigh.
    assert (n = length key_frame_ids) as ->.
    { destruct (decide (n = length key_frame_ids)); [done|].
      destruct (lookup_lt_is_Some_2 key_frame_ids n ltac:(lia)) as [y Hy].
      pose proof (Hgt _ Hy).
      pose proof (sorted_lookup_le key_frame_ids n (pred (length key_frame_ids)) y last_key
                    Hsorted Hy Hlast ltac:(lia)). lia. }
    rewrite decide_False by lia. rewrite decide_True by done.
    unfold back. by rewrite Hback.
Qed.

Lemma getNextKeyFrameId_spec_witness :
  getNextKeyFrameId [4; 8; 10] 3 = Throw (no_gop_before 3 4) /\
  (exists next,
     getNextKeyFrameId [4; 8; 10] 8 = Return next /\
     next ∈ [4; 8; 10] /\ 8 < next /\
     forall key, key ∈ [4; 8; 10] -> 8 < key -> next <= key) /\
  getNextKeyFrameId [4; 8; 10] 12 = Return 10.
Proof.
  split_and!.
  - apply (proj1 (getNextKeyFrameId_spec [4; 8; 10] 4 10 3
                    ltac:(repeat constructor; lia) eq_refl eq_refl)). lia.
  - apply (proj1 (proj2 (getNextKeyFrameId_spec [4; 8; 10] 4 10 8
                           ltac:(repeat constructor; lia) eq_refl eq_refl))). lia.
  - apply (proj2 (proj2 (getNextKeyFrameId_spec [4; 8; 10] 4 10 12
                           ltac:(repeat constructor; lia) eq_refl eq_refl))). lia.
Defined.

(** X8. For a frame id from the first entry of a strictly increasing table
    up to, but not including, its last entry, [getKeyFrameId] and
    [getNextKeyFrameId] return two consecutive entries of the table that
    enclose the frame id: together they name the GOP of the frame. *)
Theorem key_frame_ids_bracket key_frame_ids first_key last_key frame_id :
  StronglySorted Z.lt key_frame_ids ->
  head key_frame_ids = Some first_key ->
  last key_frame_ids = Some last_key ->
  first_key <= frame_id < last_key ->
  exists (k : nat) key next,
    getKeyFrameId key_frame_ids frame_id = Return key /\
    getNextKeyFrameId key_frame_ids frame_id = Return next /\
    key_frame_ids !! k = Some key /\ key_frame_ids !! S k = Some next /\
    key <= frame_id < next.
Proof.
  intros Hsorted Hhead Hlast [Hlo Hhi].
  rewrite head_lookup in Hhead. rewrite last_lookup in Hlast.
  assert (Hlen : (0 < length key_frame_ids)%nat) by (by eapply lookup_lt_Some).
  destruct (upper_bound_spec key_frame_ids frame_id) as (n&Hn&Hnlen&Hle&Hgt).
  assert (n <> 0%nat).
  { intros ->. pose proof (Hgt _ Hhead). lia. }
  assert (n < length key_frame_ids)%nat.
  { destruct (decide (n < length key_frame_ids)%nat); [done|].
    pose proof (Hle _ _ Hlast ltac:(lia)). lia. }
  destruct n as [|k]; [done|].
  destruct (lookup_lt_is_Some_2 key_frame_ids (S k) ltac:(done)) as [next Hnext].
  destruct (lookup_lt_is_Some_2 key_frame_ids k ltac:(lia)) as [key Hkey].
  pose proof (Hle k key Hkey ltac:(lia)). pose proof (Hgt next Hnext).
  exists k, key, next. split_and!; try done.
  - destruct (lower_bound_spec key_frame_ids frame_id) as (m&Hm&Hmlen&Hlt&Hge).
    unfold getKeyFrameId. rewrite Hm, at_index_lookup.
    assert (Hmk : m = k \/ (m = S k /\ key < frame_id)).
    { destruct (decide (m <= S k)%nat) as [Hle'|Hgt'].
      - destruct (decide (m = S k)) as [->|]; [|].
        + right. split; [done|]. apply (Hlt k key Hkey). lia.
        + destruct (decide (m = k)); [by left|].
          destruct (lookup_lt_is_Some_2 key_frame_ids m ltac:(lia)) as [y Hy].
          pose proof (Hge _ Hy).
          pose proof (sorted_lookup_lt key_frame_ids m k y key Hsorted Hy Hkey ltac:(lia)).
          lia.
      - pose proof (Hlt (S k) next Hnext ltac:(lia)). lia. }
    destruct Hmk as [->|[-> Hstrict]].
    + rewrite Hkey. simpl. pose proof (Hge _ Hkey).
      rewrite decide_True by lia. done.
    + rewrite Hnext. simpl. rewrite decide_False by lia.
      replace (Z.of_nat (S k) - 1) with (Z.of_nat k) by lia.
      by rewrite at_index_lookup, Hkey.
  - unfold getNextKeyFrameId. rewrite Hn.
    rewrite decide_False by lia. rewrite decide_False by lia.
    by rewrite at_index_lookup, Hnext.
Qed.

Lemma key_frame_ids_bracket_witness :
  exists (k : nat) key next,
    getKeyFrameId [0; 4; 8; 10] 6 = Return key /\
    getNextKeyFrameId [0; 4; 8; 10] 6 = Return next /\
    [0; 4; 8; 10] !! k = Some key /\ [0; 4; 8; 10] !! S k = Some next /\
    key <= 6 < next.
Proof.
  apply (key_frame_ids_bracket [0; 4; 8; 10] 0 10 6).
  - repeat constructor; lia.
  - reflexivity.
  - reflexivity.
  - lia.
Defined.

End GopDemuxerMoreProofs.

Module GopDemuxerSeekProofs.
Import Classifier GopIndex GopDemuxer GopDemuxerMore.

(** *** [Demux] on an indexed stream *)

Lemma demux_pass_indexed codec_id pending : forall pairs (n : nat) r,
  demux_pass codec_id pending = Return pairs ->
  (n < length pairs)%nat -> pending !! n = Some r ->
  ret r = true /\ nVideoBytes r <> 0 /\ exists k, pairs !! n = Some (timestamp r, k).
Proof.
  induction pending as [|r0 pending IH]; intros pairs n r; simpl.
  - intros [= <-]. simpl. lia.
  - case_decide as Hbytes; [intros [= <-]; simpl; lia|].
    destruct (ret r0) eqn:Hret; [|done].
    destruct (iskeyFrame codec_id (pVideo r0) (flags r0)) as [k| |]; simpl; try done.
    destruct (demux_pass codec_id pending) as [rest| |]; simpl; try done.
    intros [= <-] Hn Hr. destruct n as [|n]; simpl in *.
    + injection Hr as <-. eauto.
    + apply (IH rest n r eq_refl); [lia|done].
Qed.

(** X9. After [parse_gop_start_idx] has indexed a variable-frame-rate
    stream into empty maps, [Demux] resolves the frame id of every packet of
    that stream (its lookup in [pts2frame] cannot fail), and the frame id it
    reports is one whose [frame2pts] entry is the timestamp of the packet. *)
Theorem Demux_resolves_indexed_packet demuxer pairs table f2p' p2f' FrameNumFromTs
    (n : nat) r frame_id :
  demux_pass (GetVideoCodec demuxer) (packets demuxer) = Return pairs ->
  parse_gop_start_idx demuxer ∅ ∅ true = Return (table, f2p', p2f') ->
  (n < length pairs)%nat ->
  packets demuxer !! n = Some r ->
  exists j,
    Demux true (GetVideoCodec demuxer) p2f' FrameNumFromTs r frame_id None =
      Return (true, j, None) /\
    0 <= j < Z.of_nat (length pairs) /\
    f2p' !! j = Some (timestamp r).
Proof.
  intros Hpass Hparse Hn Hr.
  destruct (demux_pass_indexed _ _ _ _ _ Hpass Hn Hr) as (Hret&_&k&Hpair).
  destruct (GopIndexMore.parse_gop_start_idx_vfr_maps demuxer ∅ ∅ pairs Hpass)
    as [table' Hmaps].
  rewrite Hmaps in Hparse. injection Hparse as _ <- <-.
  assert (Hin : (timestamp r, k) ∈ sort_by_pts pairs).
  { rewrite GopIndexProofs.sort_by_pts_Permutation. by eapply list_elem_of_lookup_2. }
  apply list_elem_of_lookup in Hin as [m Hm].
  destruct (GopIndexMore.walk_pts2frame_new _ 0 (IndexState [] ∅ ∅) m _ Hm)
    as (m'&e'&Hlookup&_&He'&Hts).
  simpl in Hlookup, Hts.
  exists (0 + Z.of_nat m'). split; [|split].
  - unfold Demux. rewrite Hret. simpl. by rewrite Hlookup.
  - apply lookup_lt_Some in He'. rewrite GopIndexProofs.sort_by_pts_length in He'. lia.
  - rewrite <- Hts. by apply GopIndexMore.walk_frame2pts_new.
Qed.

Lemma Demux_resolves_indexed_packet_witness :
  exists j,
    Demux true AV_CODEC_ID_H264 {[0 := 0; 1 := 1]} Samples.frame_of_ticks
      (Samples.key_frame 1) 7 None = Return (true, j, None) /\
    0 <= j < 2 /\
    ({[0 := 0; 1 := 1]} : gmap Z Z) !! j = Some 1.
Proof.
  apply (Demux_resolves_indexed_packet Samples.late_key_frame [(0, false); (1, true)]
           [1; 2] {[0 := 0; 1 := 1]} {[0 := 0; 1 := 1]} Samples.frame_of_ticks 1%nat
           (Samples.key_frame 1) 7).
  - reflexivity.
  - vm_compute. reflexivity.
  - simpl. lia.
  - reflexivity.
Defined.

(** *** [Seek] *)

Section MappedSeek.

Variable demuxer_state : Type.
Variable IsVFRV2 : bool.
Variable TsFromFrameNumber : Z -> Z.
Variable FrameNumFromTs : Z -> Z.
Variable SeekWithTS : demuxer_state -> Z -> seek_result * demuxer_state.
Variable frame2pts : gmap Z Z.
Variable pts2frame : gmap Z Z.

Abbreviation timestamp_of := (timestamp_of IsVFRV2 TsFromFrameNumber frame2pts).
Abbreviation seek_exact_loop :=
  (seek_exact_loop demuxer_state IsVFRV2 TsFromFrameNumber SeekWithTS frame2pts).

Lemma seek_exact_loop_found fuel timestamp_keyframe : forall st ts st',
  seek_exact_loop fuel timestamp_keyframe st = Some (Some ts, st') ->
  ts = timestamp_keyframe.
Proof.
  induction fuel as [|fuel IH]; intros st ts st'; simpl; [done|].
  destruct (timestamp_of _); [|done].
  destruct (SeekWithTS _ _) as [r d].
  destruct (seek_ret r); simpl; [|done].
  case_bool_decide as Hcond.
  - by intros [= <- _].
  - apply IH.
Qed.

(** X10. Whenever [Seek] returns true, the frame it was asked for has a
    timestamp and [frame_id_out] is the frame id that belongs to exactly
    this timestamp ([pts2frame] for a variable frame rate, [FrameNumFromTs]
    otherwise): the loop is left only on the packet whose timestamp equals
    the timestamp of the requested frame.  When mapping the timestamp of
    the requested frame back gives that frame, [frame_id_out] is the
    requested frame id. *)
Theorem Seek_lands_on_requested_frame fuel d ppVideo0 pnVideoBytes0 frame_id_to_seek
    frame_id_out0 st' :
  Seek demuxer_state IsVFRV2 TsFromFrameNumber FrameNumFromTs SeekWithTS frame2pts
    pts2frame fuel d ppVideo0 pnVideoBytes0 frame_id_to_seek frame_id_out0
    = Some (true, st') ->
  exists ts,
    timestamp_of frame_id_to_seek = Some ts /\
    (if IsVFRV2 then pts2frame !! ts
     else Some (to_int32 (FrameNumFromTs ts))) = Some (frame_id_out st') /\
    ((if IsVFRV2 then pts2frame !! ts
      else Some (to_int32 (FrameNumFromTs ts))) = Some frame_id_to_seek ->
     frame_id_out st' = frame_id_to_seek).
Proof.
  unfold Seek.
  destruct (timestamp_of frame_id_to_seek) as [tk|] eqn:Htk; [|done].
  destruct (seek_exact_loop fuel tk _) as [[[ts|] st]|] eqn:Hloop; try done.
  apply seek_exact_loop_found in Hloop as ->.
  destruct (if IsVFRV2 then pts2frame !! tk else _) as [frame_id|] eqn:Hframe; [|done].
  intros [= <-]. exists tk. simpl. split_and!; [done|done|congruence].
Qed.

End MappedSeek.

Lemma Seek_lands_on_requested_frame_witness :
  exists ts,
    timestamp_of false Samples.ticks_of_frame ∅ 4 = Some ts /\
    Some (to_int32 (Samples.frame_of_ticks ts)) =
      Some (frame_id_out (SeekState 6 4 (Some Samples.sps_packet) 5 ())) /\
    (Some (to_int32 (Samples.frame_of_ticks ts)) = Some 4 ->
     frame_id_out (SeekState 6 4 (Some Samples.sps_packet) 5 ()) = 4).
Proof.
  apply (Seek_lands_on_requested_frame unit false Samples.ticks_of_frame
           Samples.frame_of_ticks seek_one_short ∅ ∅ 2 () None 0 4 0).
  vm_compute. reflexivity.
Defined.

End GopDemuxerSeekProofs.

Module DuplicatesProofs.
Import Duplicates.

Lemma hasDuplicates_from_spec vec : forall seen,
  hasDuplicates_from seen vec = false <-> NoDup vec /\ forall x, x ∈ vec -> x ∉ seen.
Proof.
  induction vec as [|num vec IH]; intros seen; simpl.
  - split; [|done]. intros _. split; [constructor|]. by intros x ?%elem_of_nil.
  - case_decide as Hseen.
    + split; [done|]. intros [_ Hfresh]. destruct (Hfresh num); [left|done].
    + rewrite IH, NoDup_cons. split.
      * intros [Hnodup Hfresh]. split_and!; [|done|].
        -- intros Hin. apply (Hfresh num Hin). apply elem_of_union. left.
           by apply elem_of_singleton.
        -- intros x [->|Hx]%elem_of_cons; [done|].
           intros Hxs. apply (Hfresh x Hx). apply elem_of_union. by right.
      * intros [[Hnum Hnodup] Hfresh]. split; [done|].
        intros x Hx [->%elem_of_singleton|Hxs]%elem_of_union; [done|].
        apply (Hfresh x); [by right|done].
Qed.

(** X11. [hasDuplicates] returns true exactly for the vectors in which some
    number occurs twice. *)
Theorem hasDuplicates_iff_not_NoDup (vec : list Z) :
  hasDuplicates vec = true <-> ~ NoDup vec.
Proof.
  unfold hasDuplicates. rewrite <- not_false_iff_true, hasDuplicates_from_spec.
  split.
  - intros Hnot Hnodup. apply Hnot. split; [done|]. set_solver.
  - intros Hnot [Hnodup _]. done.
Qed.

End DuplicatesProofs.

Module RunnerOrderProofs.
Import Runner RunnerSpec.

Lemma step_queue s ev raised s' :
  step s ev = Some (raised, s') ->
  ev <> ev_force_join_clear ->
  tasks s ++ started [ev] = taken_at s ev ++ tasks s'.
Proof.
  intros Hstep Hev. destruct ev; simpl in Hstep; unfold taken_at; simpl.
  - simplify_eq/=. by destruct (worker s).
  - unfold join in Hstep. destruct (bool_decide _ && _); [|done].
    destruct (hasException s); [destruct (exceptionPtr s)|]; simplify_eq/=;
      by rewrite app_nil_r.
  - done.
  - unfold force_join_finish in Hstep. destruct (busy s); simplify_eq/=.
    by rewrite app_nil_r.
  - unfold worker_take in Hstep. destruct (worker s); try done.
    destruct (tasks s) as [|t rest]; [destruct (stopFlag s)|]; simplify_eq/=; try done.
    by rewrite app_nil_r.
  - unfold worker_execute in Hstep.
    destruct (worker s) as [|[]| |]; simplify_eq/=; by rewrite app_nil_r.
  - unfold worker_finish in Hstep.
    destruct (worker s); simplify_eq/=; by rewrite app_nil_r.
Qed.

Lemma started_cons ev evs : started (ev :: evs) = started [ev] ++ started evs.
Proof. by destruct ev. Qed.

Lemma run_taken_queue evs : forall s taken s',
  run_taken s evs = Some (taken, s') ->
  ev_force_join_clear ∉ evs ->
  tasks s ++ started evs = taken ++ tasks s'.
Proof.
  induction evs as [|ev evs IH]; intros s taken s'.
  - simpl. intros [= <- <-] _. by rewrite app_nil_r.
  - cbn [run_taken].
    destruct (step s ev) as [[raised s1]|] eqn:Hstep; [|done].
    destruct (run_taken s1 evs) as [[taken1 s2]|] eqn:Hrun; [|done].
    intros [= <- <-] Hclear.
    apply not_elem_of_cons in Hclear as [Hev Hclear].
    pose proof (step_queue s ev raised s1 Hstep ltac:(congruence)) as Hq.
    pose proof (IH s1 taken1 s2 Hrun Hclear) as Hrest.
    rewrite started_cons, app_assoc, Hq, <- !app_assoc. by rewrite Hrest.
Qed.



(** *** Which failure a join raises *)

Lemma last_failure_app ts t :
  last_failure (ts ++ [t]) =
  match t with
  | task_returns => last_failure ts
  | task_throws_std e | task_throws_other e => Some e
  end.
Proof.
  induction ts as [|t0 ts IH]; simpl.
  - by destruct t.
  - rewrite IH. by destruct t.
Qed.

Lemma step_mirrors all s ev raised s' :
  mirrors all s -> start_or_worker_step ev = true ->
  step s ev = Some (raised, s') ->
  raised = None /\ mirrors (all ++ started [ev]) s'.
Proof.
  intros [Hco (done&Hall&Hptr&Hhas)] Hev Hstep.
  assert (Hco' : coherent s') by (by eapply RunnerProofs.step_coherent).
  unfold mirrors, in_flight in *.
  destruct ev; simpl in Hev, Hstep; try done.
  - simplify_eq/=. split; [done|]. split; [done|].
    exists done. rewrite <- !app_assoc. done.
  - unfold worker_take in Hstep. destruct (worker s) eqn:Hw; try done.
    destruct (tasks s) as [|t rest] eqn:Ht; [destruct (stopFlag s)|]; simplify_eq/=.
    + split; [done|]. split; [done|]. exists done. by rewrite app_nil_r.
    + split; [done|]. split; [done|]. exists done. by rewrite app_nil_r.
  - unfold worker_execute in Hstep.
    destruct (worker s) as [|t| |] eqn:Hw; try done.
    assert (Hdone : all ++ [] = (done ++ [t]) ++ [] ++ tasks s).
    { rewrite app_nil_r, <- !app_assoc. done. }
    destruct t as [|e|e]; simplify_eq/=; (split; [done|]); (split; [done|]).
    + exists (done ++ [task_returns]). by rewrite last_failure_app.
    + exists (done ++ [task_throws_std e]). by rewrite last_failure_app.
    + exists (done ++ [task_throws_other e]). by rewrite last_failure_app.
  - unfold worker_finish in Hstep.
    destruct (worker s) eqn:Hw; simplify_eq/=.
    split; [done|]. split; [done|]. exists done. by rewrite app_nil_r.
Qed.

Lemma run_mirrors evs : forall all s thrown s',
  mirrors all s -> Forall (fun ev => start_or_worker_step ev = true) evs ->
  run s evs = Some (thrown, s') ->
  thrown = [] /\ mirrors (all ++ started evs) s'.
Proof.
  induction evs as [|ev evs IH]; intros all s thrown s' Hs Hevs.
  - simpl. intros [= <- <-]. by rewrite app_nil_r.
  - cbn [run]. apply Forall_cons in Hevs as [Hev Hevs].
    destruct (step s ev) as [[raised s1]|] eqn:Hstep; [|done].
    destruct (run s1 evs) as [[thrown1 s2]|] eqn:Hrun; [|done].
    intros [= <- <-].
    destruct (step_mirrors all s ev raised s1 Hs Hev Hstep) as [-> Hs1].
    destruct (IH _ s1 thrown1 s2 Hs1 Hevs Hrun) as [-> Hs2].
    split; [done|]. by rewrite started_cons, app_assoc.
Qed.

(** X17. When tasks have been started on a fresh runner and the worker has
    worked them all off, [join] raises the failure of the last started task
    that fails, whatever the earlier tasks raised, and returns normally
    when no task fails; either way it leaves the failure state cleared. *)
Theorem join_raises_last_failure evs thrown s :
  run new evs = Some (thrown, s) ->
  Forall (fun ev => start_or_worker_step ev = true) evs ->
  quiescent s ->
  exists s',
    join s = Some (match last_failure (started evs) with
                   | Some e => Throw e
                   | None => Return ()
                   end, s') /\
    cleared s'.
Proof.
  intros Hrun Hevs [Htasks Hbusy].
  assert (Hnew : mirrors [] new).
  { split; [done|]. by exists []. }
  destruct (run_mirrors evs [] new thrown s Hnew Hevs Hrun)
    as [_ [Hco (done&Hall&Hptr&Hhas)]].
  simpl in Hall. unfold in_flight in Hall. unfold coherent in Hco.
  assert (started evs = done) as ->.
  { rewrite Hall, Htasks. destruct (worker s); try congruence; by rewrite !app_nil_r. }
  unfold join. rewrite Htasks, Hbusy, Hhas, Hptr. simpl.
  destruct (last_failure done) as [e|]; simpl; eexists; split; done.
Qed.

Lemma join_raises_last_failure_witness :
  exists s',
    join (Runner [] false false true (Some Samples.decode_failed) waiting) =
      Some (match last_failure
                    (started [ev_start (task_throws_other unknown_task_failure);
                              ev_start (task_throws_std Samples.decode_failed);
                              ev_start task_returns;
                              ev_take; ev_execute; ev_finish;
                              ev_take; ev_execute; ev_finish;
                              ev_take; ev_execute; ev_finish]) with
            | Some e => Throw e
            | None => Return ()
            end, s') /\
    cleared s'.
Proof.
  apply (join_raises_last_failure
           [ev_start (task_throws_other unknown_task_failure);
            ev_start (task_throws_std Samples.decode_failed);
            ev_start task_returns;
            ev_take; ev_execute; ev_finish;
            ev_take; ev_execute; ev_finish;
            ev_take; ev_execute; ev_finish] []).
  - reflexivity.
  - repeat constructor.
  - split; reflexivity.
Defined.

(** *** [force_join] *)

Lemma worker_steps_keep_queue_empty evs : forall s thrown s',
  tasks s = [] -> Forall (fun ev => worker_step ev = true) evs ->
  run s evs = Some (thrown, s') ->
  thrown = [] /\ tasks s' = [] /\
  forall taken s'', run_taken s evs = Some (taken, s'') -> taken = [].
Proof.
  induction evs as [|ev evs IH]; intros s thrown s' Hq Hevs; simpl.
  - intros [= <- <-]. split_and!; [done|done|]. by intros taken s'' [= <- _].
  - apply Forall_cons in Hevs as [Hev Hevs].
    destruct (step s ev) as [[raised s1]|] eqn:Hstep; [|done].
    destruct (run s1 evs) as [[thrown1 s2]|] eqn:Hrun; [|done].
    intros [= <- <-].
    assert (Hs1 : raised = None /\ tasks s1 = [] /\ taken_at s ev = []).
    { unfold taken_at. rewrite Hq.
      destruct ev; simpl in Hev, Hstep; try done.
      - unfold worker_take in Hstep. rewrite Hq in Hstep.
        destruct (worker s); try done. destruct (stopFlag s); by simplify_eq/=.
      - unfold worker_execute in Hstep.
        destruct (worker s) as [|[]| |]; by simplify_eq/=.
      - unfold worker_finish in Hstep. destruct (worker s); by simplify_eq/=. }
    destruct Hs1 as (->&Hq1&Htaken).
    destruct (IH s1 thrown1 s2 Hq1 Hevs Hrun) as (->&Hq2&Hnone).
    split_and!; [done|done|].
    intros taken s''. destruct (run_taken s1 evs) as [[taken1 s3]|] eqn:Hrt; [|done].
    intros [= <- _]. rewrite Htaken. simpl. by apply (Hnone taken1 s3).
Qed.

Lemma run_before_force_join_finish evs : forall s thrown s1,
  run s (evs ++ [ev_force_join_finish]) = Some (thrown, s1) ->
  exists s2, run s evs = Some (thrown, s2) /\ force_join_finish s2 = Some s1.
Proof.
  induction evs as [|ev evs IH]; intros s thrown s1; simpl.
  - destruct (force_join_finish s) as [s'|] eqn:Hfinish; [|done]. simpl.
    intros [= <- <-]. eauto.
  - destruct (step s ev) as [[raised s2]|]; [|done].
    destruct (run s2 (evs ++ [ev_force_join_finish])) as [[t3 s3]|] eqn:Hr; [|done].
    intros [= <- <-]. destruct (IH s2 t3 s3 Hr) as (s4&->&?). eauto.
Qed.

(** X18. [force_join] abandons what is queued: between the moment it
    empties the queue and the moment it returns, the worker takes no task,
    and when it returns the queue is empty, no task is executing and the
    failure state is cleared, so that a [join] right after it returns at
    once without raising, whatever failed before or during the call. *)
Theorem force_join_discards s worker_evs thrown s' :
  Forall (fun ev => worker_step ev = true) worker_evs ->
  run s (ev_force_join_clear :: worker_evs ++ [ev_force_join_finish]) = Some (thrown, s') ->
  thrown = [] /\ quiescent s' /\ cleared s' /\
  join s' = Some (Return (), s') /\
  forall taken s'',
    run_taken (force_join_clear s) worker_evs = Some (taken, s'') -> taken = [].
Proof.
  intros Hevs Hrun. simpl in Hrun.
  destruct (run (force_join_clear s) (worker_evs ++ [ev_force_join_finish]))
    as [[thrown1 s1]|] eqn:Hrest; [|done].
  injection Hrun as <- <-.
  destruct (run_before_force_join_finish _ _ _ _ Hrest) as (s2&Hworker&Hfinish).
  rename thrown1 into thrown2.
  destruct (worker_steps_keep_queue_empty worker_evs (force_join_clear s) thrown2 s2
              eq_refl Hevs Hworker) as (->&Hq2&Hnone).
  unfold force_join_finish in Hfinish. destruct (busy s2) eqn:Hbusy; [done|].
  injection Hfinish as <-.
  split_and!; [done|by split|by split| |done].
  unfold join. simpl. by rewrite Hq2.
Qed.

Lemma force_join_discards_witness :
  ([] : list exception) = [] /\
  quiescent (Runner [] false false false None waiting) /\
  cleared (Runner [] false false false None waiting) /\
  join (Runner [] false false false None waiting) =
    Some (Return (), Runner [] false false false None waiting) /\
  forall taken s'',
    run_taken
      (force_join_clear
         (Runner [task_throws_std Samples.decode_failed; task_returns] false true false None
                 (executing (task_throws_std Samples.decode_failed))))
      [ev_execute; ev_finish] = Some (taken, s'') -> taken = [].
Proof.
  apply (force_join_discards
           (Runner [task_throws_std Samples.decode_failed; task_returns] false true false None
                   (executing (task_throws_std Samples.decode_failed)))
           [ev_execute; ev_finish] []).
  - repeat constructor.
  - reflexivity.
Defined.

End RunnerOrderProofs.

Module RunnerJoinProofs.
Import Runner RunnerSpec.


Lemma last_failure_none ts :
  Forall (fun t => fails t = false) ts -> last_failure ts = None.
Proof.
  induction 1 as [|t ts Ht _ IH]; [done|].
  cbn [last_failure]. rewrite IH. by destruct t.
Qed.

(** The failure of the last task that fails. *)
Lemma last_failure_of_last_failing before t e after :
  raises t e -> Forall (fun t' => fails t' = false) after ->
  last_failure (before ++ t :: after) = Some e.
Proof.
  intros Ht Hafter. induction before as [|t0 before IH].
  - cbn [app last_failure]. rewrite (last_failure_none after Hafter).
    by destruct Ht as [-> | ->].
  - cbn [app last_failure]. by rewrite IH.
Qed.



End RunnerJoinProofs.


Module AsyncPipelineProofs.
Import SampleReader AsyncPipeline.

Section Pipeline.

Variable RGBFrame : Type.
Variable decode_frames : list string -> list Z -> bool -> exception + list RGBFrame.
Variable num_of_file : Z.

Abbreviation run_rgb_out := (run_rgb_out RGBFrame decode_frames num_of_file).
Abbreviation async_decode_task := (async_decode_task RGBFrame decode_frames num_of_file).
Abbreviation decoded := (decoded RGBFrame decode_frames num_of_file).
Abbreviation task_push := (task_push RGBFrame decode_frames num_of_file).
Abbreviation worker_join := (worker_join RGBFrame decode_frames num_of_file).
Abbreviation retrieve := (retrieve RGBFrame decode_frames num_of_file).
Abbreviation DecodeN12ToRGBAsync := (DecodeN12ToRGBAsync RGBFrame decode_frames num_of_file).
Abbreviation DecodeN12ToRGB := (DecodeN12ToRGB RGBFrame decode_frames num_of_file).

(** A result of the task carries as many frame ids as file paths unless
    it carries a failure. *)
Lemma async_decode_task_lengths filepaths frame_ids bgr :
  exception_ptr (async_decode_task filepaths frame_ids bgr) = None ->
  length filepaths = length frame_ids.
Proof.
  unfold SampleReader.async_decode_task, SampleReader.run_rgb_out.
  case_decide as Hlen; [done|].
  intros _. destruct (decide (length filepaths = length frame_ids)); [done|].
  by destruct Hlen.
Qed.

(** Popping the result of the task of the same request. *)
Lemma get_buffer_same_request pending queue filepaths frame_ids bgr :
  DecodeN12ToRGBAsyncGetBuffer
    (AsyncState pending (async_decode_task filepaths frame_ids bgr :: queue))
    filepaths frame_ids bgr =
  Some (decoded filepaths frame_ids bgr, AsyncState pending queue).
Proof.
  unfold DecodeN12ToRGBAsyncGetBuffer. rewrite andb_false_r.
  cbn [decode_result_queue has_pending_task].
  pose proof (async_decode_task_lengths filepaths frame_ids bgr) as Hlen.
  unfold AsyncPipeline.decoded.
  unfold SampleReader.async_decode_task in *.
  destruct (SampleReader.run_rgb_out _ _ _ _ _ _) as [e|frames]; [done|].
  cbn [is_ready exception_ptr negb decoded_frames] in *.
  rewrite SampleReaderProofs.validate_request_spec by (cbn; auto).
  by rewrite bool_decide_eq_true_2.
Qed.

(** Popping the result of the task of another request, for a request
    with a frame id for every file path. *)
Lemma get_buffer_other_request pending queue filepaths frame_ids bgr
    filepaths' frame_ids' bgr' :
  (filepaths', frame_ids', bgr') <> (filepaths, frame_ids, bgr) ->
  (length filepaths <= length frame_ids)%nat ->
  exists r,
    DecodeN12ToRGBAsyncGetBuffer
      (AsyncState pending (async_decode_task filepaths' frame_ids' bgr' :: queue))
      filepaths frame_ids bgr = Some (r, AsyncState pending queue) /\
    match run_rgb_out filepaths' frame_ids' bgr' with
    | inl e => r = Throw e
    | inr _ =>
        exists expected got,
          generate_request_key filepaths frame_ids bgr = Return expected /\
          generate_request_key filepaths' frame_ids' bgr' = Return got /\
          r = Throw (request_mismatch expected got)
    end.
Proof.
  intros Hne Hle.
  pose proof (async_decode_task_lengths filepaths' frame_ids' bgr') as Hlen.
  destruct (SampleReader.run_rgb_out _ _ _ filepaths' frame_ids' bgr') as [e|frames] eqn:Hrun.
  - eexists. split; [|done].
    unfold DecodeN12ToRGBAsyncGetBuffer, SampleReader.async_decode_task.
    rewrite Hrun, andb_false_r. done.
  - assert (Htask : async_decode_task filepaths' frame_ids' bgr' =
                    Result frames filepaths' frame_ids' bgr' true None).
    { unfold SampleReader.async_decode_task. by rewrite Hrun. }
    rewrite Htask in Hlen |- *.
    destruct (SampleReaderProofs.get_buffer_in_bounds RGBFrame decode_frames
                (AsyncState pending (Result frames filepaths' frame_ids' bgr' true None :: queue))
                (Result frames filepaths' frame_ids' bgr' true None) queue
                filepaths frame_ids bgr eq_refl eq_refl eq_refl (Hlen eq_refl) Hle)
      as (expected&got&Hexp&Hgot&Hget).
    rewrite bool_decide_eq_false_2 in Hget by (cbn; congruence).
    eexists. split; [exact Hget|]. by exists expected, got.
Qed.

(** Retrieving from a pipeline whose task has still to push, into an
    empty buffer, the result of the request asked for. *)
Lemma retrieve_while_decoding filepaths frame_ids bgr :
  retrieve (Pipeline (AsyncState true []) (decoding (filepaths, frame_ids, bgr)))
    filepaths frame_ids bgr =
  Some (decoded filepaths frame_ids bgr, Pipeline (AsyncState true []) publishing).
Proof.
  unfold AsyncPipeline.retrieve. cbn.
  rewrite decide_True by lia. cbn [mbind option_bind async phase].
  by rewrite get_buffer_same_request.
Qed.

(** X19. A request submitted to a reader with no task pending and an
    empty result buffer, then retrieved with the same file paths, frame
    ids and colour flag, delivers exactly what [run_rgb_out] gives for
    it, the frames or the failure; the buffer is empty afterwards, and
    once the task has marked itself completed a further retrieval throws
    the nothing-pending error. *)
Theorem submit_then_retrieve (p : pipeline RGBFrame) filepaths frame_ids bgr :
  has_pending_task (async p) = false ->
  decode_result_queue (async p) = [] ->
  exists p1 p2 p3,
    DecodeN12ToRGBAsync p filepaths frame_ids bgr = Some p1 /\
    retrieve p1 filepaths frame_ids bgr = Some (decoded filepaths frame_ids bgr, p2) /\
    decode_result_queue (async p2) = [] /\
    task_done RGBFrame p2 = Some p3 /\
    retrieve p3 filepaths frame_ids bgr = Some (Throw nothing_pending, p3).
Proof.
  intros Hpending Hqueue.
  unfold AsyncPipeline.DecodeN12ToRGBAsync. rewrite Hpending.
  unfold start_task. rewrite Hqueue.
  eexists _, _, _. split; [done|].
  rewrite retrieve_while_decoding. split; [done|]. split; [done|].
  split; [done|]. done.
Qed.

(** X20. Submitting a request while an earlier task is pending (its
    result pushed already, or still to be pushed into the empty buffer)
    waits for that task and drops its result: the next retrieval delivers
    the outcome of the new request and leaves the buffer empty. *)
Theorem resubmit_discards_pending_result (p : pipeline RGBFrame) filepaths frame_ids bgr :
  has_pending_task (async p) = true ->
  phase p <> idle ->
  (forall req, phase p = decoding req -> decode_result_queue (async p) = []) ->
  exists p1 p2,
    DecodeN12ToRGBAsync p filepaths frame_ids bgr = Some p1 /\
    retrieve p1 filepaths frame_ids bgr = Some (decoded filepaths frame_ids bgr, p2) /\
    decode_result_queue (async p2) = [].
Proof.
  intros Hpending Hphase Hroom.
  unfold AsyncPipeline.DecodeN12ToRGBAsync. rewrite Hpending.
  assert (Hjoin : exists p', worker_join p = Some p').
  { unfold AsyncPipeline.worker_join, AsyncPipeline.task_push, task_done.
    destruct (phase p) as [|[[fp ids] b]|] eqn:Hp; [done| |].
    - rewrite (Hroom _ eq_refl). cbn. eauto.
    - eauto. }
  destruct Hjoin as [p' ->]. cbn [mbind option_bind].
  unfold start_task. cbn [async decode_result_queue].
  eexists _, _. split; [done|].
  rewrite retrieve_while_decoding. done.
Qed.

(** X21. A task that completed without its result being retrieved leaves
    the result in the buffer, and the next submission does not clear it.
    The first retrieval for the new, different request (one with a frame
    id for every file path) then pops the old result and throws: the old
    task's failure, or the mismatch error that names the keys of the two
    requests.  Only the second retrieval delivers the outcome of the new
    request. *)
Theorem stale_result_is_delivered_first filepaths' frame_ids' bgr'
    filepaths frame_ids bgr :
  (filepaths', frame_ids', bgr') <> (filepaths, frame_ids, bgr) ->
  (length filepaths <= length frame_ids)%nat ->
  exists p1 p2 p3 r p4 p5,
    DecodeN12ToRGBAsync (fresh RGBFrame) filepaths' frame_ids' bgr' = Some p1 /\
    worker_join p1 = Some p2 /\
    DecodeN12ToRGBAsync p2 filepaths frame_ids bgr = Some p3 /\
    retrieve p3 filepaths frame_ids bgr = Some (r, p4) /\
    match run_rgb_out filepaths' frame_ids' bgr' with
    | inl e => r = Throw e
    | inr _ =>
        exists expected got,
          generate_request_key filepaths frame_ids bgr = Return expected /\
          generate_request_key filepaths' frame_ids' bgr' = Return got /\
          r = Throw (request_mismatch expected got)
    end /\
    retrieve p4 filepaths frame_ids bgr = Some (decoded filepaths frame_ids bgr, p5).
Proof.
  intros Hne Hle.
  destruct (get_buffer_other_request true [] filepaths frame_ids bgr
              filepaths' frame_ids' bgr' Hne Hle) as (r&Hget&Hr).
  exists (Pipeline (AsyncState true []) (decoding (filepaths', frame_ids', bgr'))),
    (Pipeline (AsyncState false [async_decode_task filepaths' frame_ids' bgr']) idle),
    (Pipeline (AsyncState true [async_decode_task filepaths' frame_ids' bgr'])
       (decoding (filepaths, frame_ids, bgr))),
    r,
    (Pipeline (AsyncState true []) (decoding (filepaths, frame_ids, bgr))),
    (Pipeline (AsyncState true []) publishing).
  split; [reflexivity|]. split; [reflexivity|]. split; [reflexivity|].
  split; [|split; [done|]].
  - unfold AsyncPipeline.retrieve. cbn [async phase]. by rewrite Hget.
  - apply retrieve_while_decoding.
Qed.

(** X22. The synchronous [DecodeN12ToRGB] waits for a pending task and
    empties the result buffer before it decodes: on a reader whose
    pending flag is set exactly while a task is on its way, and whose
    task finds room for its result, the call comes back, and a retrieval
    after it throws the nothing-pending error whatever was submitted
    before. *)
Theorem sync_decode_invalidates_async_result (p : pipeline RGBFrame)
    filepaths frame_ids bgr :
  in_step RGBFrame p ->
  (forall req, phase p = decoding req -> decode_result_queue (async p) = []) ->
  exists r p',
    DecodeN12ToRGB p filepaths frame_ids bgr = Some (r, p') /\
    forall filepaths' frame_ids' bgr',
      retrieve p' filepaths' frame_ids' bgr' = Some (Throw nothing_pending, p').
Proof.
  intros Hstep Hroom. unfold AsyncPipeline.DecodeN12ToRGB.
  assert (Hjoin : exists p1,
    (if has_pending_task (async p) then worker_join p else Some p) = Some p1 /\
    has_pending_task (async p1) = false).
  { destruct (has_pending_task (async p)) eqn:Hpending; [|eauto].
    unfold AsyncPipeline.worker_join, AsyncPipeline.task_push, task_done.
    destruct (phase p) as [|[[fp ids] b]|] eqn:Hp.
    - destruct (proj1 Hstep Hpending Hp).
    - rewrite (Hroom _ eq_refl). cbn. eauto.
    - eauto. }
  destruct Hjoin as (p1&->&Hp1). cbn [mbind option_bind]. rewrite Hp1.
  destruct (SampleReader.run_rgb_out _ _ _ _ _ _) as [e|frames];
    (eexists _, _; split; [done|]; intros; done).
Qed.

End Pipeline.

Lemma submit_then_retrieve_witness :
  exists p1 p2 p3,
    AsyncPipeline.DecodeN12ToRGBAsync Z Samples.decode_ids 2 (fresh Z)
      ["A"; "B"]%string [0; 10] false = Some p1 /\
    AsyncPipeline.retrieve Z Samples.decode_ids 2 p1 ["A"; "B"]%string [0; 10] false =
      Some (AsyncPipeline.decoded Z Samples.decode_ids 2 ["A"; "B"]%string [0; 10] false, p2) /\
    decode_result_queue (async p2) = [] /\
    task_done Z p2 = Some p3 /\
    AsyncPipeline.retrieve Z Samples.decode_ids 2 p3 ["A"; "B"]%string [0; 10] false =
      Some (Throw nothing_pending, p3).
Proof.
  apply (submit_then_retrieve Z Samples.decode_ids 2 (fresh Z)); reflexivity.
Defined.

Lemma resubmit_discards_pending_result_witness :
  exists p1 p2,
    AsyncPipeline.DecodeN12ToRGBAsync Z Samples.decode_ids 2
      (Pipeline (AsyncState true []) (decoding (["A"]%string, [3], true)))
      ["A"; "B"]%string [0; 10] false = Some p1 /\
    AsyncPipeline.retrieve Z Samples.decode_ids 2 p1 ["A"; "B"]%string [0; 10] false =
      Some (AsyncPipeline.decoded Z Samples.decode_ids 2 ["A"; "B"]%string [0; 10] false, p2) /\
    decode_result_queue (async p2) = [].
Proof.
  apply (resubmit_discards_pending_result Z Samples.decode_ids 2
           (Pipeline (AsyncState true []) (decoding (["A"]%string, [3], true)))).
  - reflexivity.
  - discriminate.
  - reflexivity.
Defined.

Lemma stale_result_is_delivered_first_witness :
  exists p1 p2 p3 r p4 p5,
    AsyncPipeline.DecodeN12ToRGBAsync Z Samples.decode_ids 2 (fresh Z)
      ["A"]%string [3] true = Some p1 /\
    AsyncPipeline.worker_join Z Samples.decode_ids 2 p1 = Some p2 /\
    AsyncPipeline.DecodeN12ToRGBAsync Z Samples.decode_ids 2 p2
      ["A"; "B"]%string [0; 10] false = Some p3 /\
    AsyncPipeline.retrieve Z Samples.decode_ids 2 p3 ["A"; "B"]%string [0; 10] false =
      Some (r, p4) /\
    match SampleReader.run_rgb_out Z Samples.decode_ids 2 ["A"]%string [3] true with
    | inl e => r = Throw e
    | inr _ =>
        exists expected got,
          generate_request_key ["A"; "B"]%string [0; 10] false = Return expected /\
          generate_request_key ["A"]%string [3] true = Return got /\
          r = Throw (request_mismatch expected got)
    end /\
    AsyncPipeline.retrieve Z Samples.decode_ids 2 p4 ["A"; "B"]%string [0; 10] false =
      Some (AsyncPipeline.decoded Z Samples.decode_ids 2 ["A"; "B"]%string [0; 10] false, p5).
Proof.
  apply (stale_result_is_delivered_first Z Samples.decode_ids 2
           ["A"]%string [3] true ["A"; "B"]%string [0; 10] false).
  - discriminate.
  - simpl. lia.
Defined.

Lemma sync_decode_invalidates_async_result_witness :
  exists r p',
    AsyncPipeline.DecodeN12ToRGB Z Samples.decode_ids 2
      (Pipeline (AsyncState true []) (decoding (["A"]%string, [3], true)))
      ["A"; "B"]%string [0; 10] false = Some (r, p') /\
    forall filepaths' frame_ids' bgr',
      AsyncPipeline.retrieve Z Samples.decode_ids 2 p' filepaths' frame_ids' bgr' =
        Some (Throw nothing_pending, p').
Proof.
  apply (sync_decode_invalidates_async_result Z Samples.decode_ids 2
           (Pipeline (AsyncState true []) (decoding (["A"]%string, [3], true)))).
  - split; [discriminate | reflexivity].
  - reflexivity.
Defined.

End AsyncPipelineProofs.


Module SampleReaderMore.
Import SampleReader.

(** The loop of [validate_request] looks at the first [i + n] file paths
    and frame ids only. *)
Lemma validate_from_prefix {RGBFrame} (result : DecodeResult RGBFrame) filepaths frame_ids :
  length (file_path_list result) = length filepaths ->
  length (frame_id_list result) = length frame_ids ->
  (length filepaths <= length frame_ids)%nat ->
  forall (n i : nat),
    (i + n)%nat = length filepaths ->
    validate_from n (Z.of_nat i) result filepaths frame_ids =
    Return (bool_decide (drop i (file_path_list result) = drop i filepaths /\
                         take n (drop i (frame_id_list result)) =
                         take n (drop i frame_ids))).
Proof.
  intros Hfp Hid Hle n. induction n as [|n IH]; intros i Hi; simpl.
  - rewrite !drop_ge by lia. by rewrite bool_decide_eq_true_2.
  - rewrite !at_index_lookup.
    destruct (lookup_lt_is_Some_2 (file_path_list result) i ltac:(lia)) as [rp Hrp].
    destruct (lookup_lt_is_Some_2 filepaths i ltac:(lia)) as [fp Hp].
    destruct (lookup_lt_is_Some_2 (frame_id_list result) i ltac:(lia)) as [ri Hri].
    destruct (lookup_lt_is_Some_2 frame_ids i ltac:(lia)) as [fi Hi'].
    rewrite Hrp, Hp. simpl.
    rewrite (drop_S _ _ _ Hrp), (drop_S _ _ _ Hp), (drop_S _ _ _ Hri), (drop_S _ _ _ Hi').
    case_decide as Hpath.
    { rewrite bool_decide_eq_false_2; [done|]. intros [[= ? _] _]. done. }
    subst rp.
    rewrite Hri, Hi'. simpl.
    case_decide as Hframe.
    { rewrite bool_decide_eq_false_2; [done|]. intros [_ [= ? _]]. done. }
    subst ri.
    replace (Z.of_nat i + 1) with (Z.of_nat (S i)) by lia.
    rewrite IH by lia. f_equal. apply bool_decide_ext.
    split; [intros [-> ->]; done | intros [[= ->] [= ->]]; done].
Qed.

(** X23. For a request with at least as many frame ids as file paths,
    [validate_request] accepts a result exactly when the two pairs of
    vectors have the same lengths, the colour flags agree, the file paths
    agree, and the frame ids agree at the positions below the number of
    file paths: frame ids beyond that are not compared. *)
Theorem validate_request_compares_prefix {RGBFrame} (result : DecodeResult RGBFrame)
    filepaths frame_ids bgr :
  (length filepaths <= length frame_ids)%nat ->
  validate_request result filepaths frame_ids bgr =
  Return (bool_decide (length (frame_id_list result) = length frame_ids /\
                       as_bgr result = bgr /\
                       file_path_list result = filepaths /\
                       take (length filepaths) (frame_id_list result) =
                       take (length filepaths) frame_ids)).
Proof.
  intros Hle. unfold validate_request.
  case_decide as Hlen.
  { rewrite bool_decide_eq_false_2; [done|]. intros (Hid&_&<-&_).
    destruct Hlen as [Hlen|Hlen]; by destruct Hlen. }
  assert (Hfp : length (file_path_list result) = length filepaths).
  { destruct (decide (length (file_path_list result) = length filepaths)); [done|].
    destruct Hlen. by left. }
  assert (Hid : length (frame_id_list result) = length frame_ids).
  { destruct (decide (length (frame_id_list result) = length frame_ids)); [done|].
    destruct Hlen. by right. }
  case_decide as Hbgr.
  { rewrite bool_decide_eq_false_2; [done|]. by intros (_&?&_). }
  pose proof (validate_from_prefix result filepaths frame_ids Hfp Hid Hle
                (length filepaths) 0%nat eq_refl) as Hloop.
  change (Z.of_nat 0) with 0 in Hloop. rewrite Hloop.
  f_equal. apply bool_decide_ext. rewrite !drop_0.
  destruct (decide (as_bgr result = bgr)) as [Heq|Hne]; [tauto|].
  by destruct Hbgr.
Qed.

Lemma validate_request_compares_prefix_witness :
  validate_request (Result ([] : list Z) ["A"%string] [0; 10] false true None)
    ["A"%string] [0; 11] false =
  Return (bool_decide
    (length (frame_id_list (Result ([] : list Z) ["A"%string] [0; 10] false true None)) =
       length [0; 11] /\
     as_bgr (Result ([] : list Z) ["A"%string] [0; 10] false true None) = false /\
     file_path_list (Result ([] : list Z) ["A"%string] [0; 10] false true None) =
       ["A"%string] /\
     take (length ["A"%string])
       (frame_id_list (Result ([] : list Z) ["A"%string] [0; 10] false true None)) =
     take (length ["A"%string]) [0; 11])).
Proof.
  apply (validate_request_compares_prefix
           (Result ([] : list Z) ["A"%string] [0; 10] false true None)
           ["A"%string] [0; 11] false).
  simpl. lia.
Defined.

(** X26. For a result buffered by the worker without a failure and a
    request with a frame id for every file path,
    [DecodeN12ToRGBAsyncGetBuffer] pops the result and returns its frames
    when the file paths, frame ids and colour flag of the request equal
    the ones stored in the result; when they differ anywhere it throws
    the mismatch error, whose message names the key of the request and
    the key of the result, and returns no frames. *)
Theorem get_buffer_checks_fingerprint_in_bounds {RGBFrame}
    (decode_frames : list string -> list Z -> bool -> exception + list RGBFrame)
    (num_of_file : Z) (s : async_state RGBFrame) result queue' filepaths frame_ids bgr :
  decode_result_queue s = result :: queue' ->
  buffered RGBFrame decode_frames num_of_file result ->
  exception_ptr result = None ->
  (length filepaths <= length frame_ids)%nat ->
  exists expected got,
    generate_request_key filepaths frame_ids bgr = Return expected /\
    generate_request_key (file_path_list result) (frame_id_list result) (as_bgr result)
      = Return got /\
    ((filepaths, frame_ids, bgr) =
       (file_path_list result, frame_id_list result, as_bgr result) ->
     DecodeN12ToRGBAsyncGetBuffer s filepaths frame_ids bgr =
       Some (Return (decoded_frames result), AsyncState (has_pending_task s) queue')) /\
    ((filepaths, frame_ids, bgr) <>
       (file_path_list result, frame_id_list result, as_bgr result) ->
     DecodeN12ToRGBAsyncGetBuffer s filepaths frame_ids bgr =
       Some (Throw (request_mismatch expected got),
             AsyncState (has_pending_task s) queue')).
Proof.
  intros Hqueue Hbuf Hnone Hle.
  destruct (SampleReaderProofs.buffered_without_failure _ _ _ result Hbuf Hnone)
    as [Hready Hwf].
  destruct (SampleReaderProofs.get_buffer_in_bounds RGBFrame decode_frames s result queue'
              filepaths frame_ids bgr Hqueue Hready Hnone Hwf Hle)
    as (expected&got&Hexp&Hgot&Hget).
  exists expected, got. split; [done|]. split; [done|]. split.
  - intros Heq. by rewrite bool_decide_eq_true_2 in Hget.
  - intros Hne. by rewrite bool_decide_eq_false_2 in Hget.
Qed.

Lemma get_buffer_checks_fingerprint_in_bounds_witness :
  exists expected got,
    generate_request_key ["A"; "B"]%string [0; 11] false = Return expected /\
    generate_request_key (file_path_list Samples.buffered_result)
      (frame_id_list Samples.buffered_result) (as_bgr Samples.buffered_result)
      = Return got /\
    ((["A"; "B"]%string, [0; 11], false) =
       (file_path_list Samples.buffered_result, frame_id_list Samples.buffered_result,
        as_bgr Samples.buffered_result) ->
     DecodeN12ToRGBAsyncGetBuffer (AsyncState false [Samples.buffered_result])
       ["A"; "B"]%string [0; 11] false =
       Some (Return (decoded_frames Samples.buffered_result), AsyncState false [])) /\
    ((["A"; "B"]%string, [0; 11], false) <>
       (file_path_list Samples.buffered_result, frame_id_list Samples.buffered_result,
        as_bgr Samples.buffered_result) ->
     DecodeN12ToRGBAsyncGetBuffer (AsyncState false [Samples.buffered_result])
       ["A"; "B"]%string [0; 11] false =
       Some (Throw (request_mismatch expected got), AsyncState false [])).
Proof.
  apply (get_buffer_checks_fingerprint_in_bounds Samples.decode_ids 2
           (AsyncState false [Samples.buffered_result]) Samples.buffered_result []
           ["A"; "B"]%string [0; 11] false eq_refl).
  - exists ["A"; "B"]%string, [0; 10], false. reflexivity.
  - reflexivity.
  - simpl. lia.
Defined.

End SampleReaderMore.

Module ParallelProofs.
Import Parallel.

Section ProcessFrames.

Variables T Reader : Type.
Variable default : T.
Variable process_frame : Reader -> Z -> exception + T.
Variable video_readers : list Reader.
Variable frame_ids : list Z.

Abbreviation thread_body := (thread_body T Reader process_frame video_readers frame_ids).
Abbreviation run_threads := (run_threads T Reader process_frame video_readers frame_ids).
Abbreviation decodes_to := (decodes_to T Reader process_frame video_readers frame_ids).
Abbreviation fails_with := (fails_with T Reader process_frame video_readers frame_ids).

Lemma thread_body_decodes i x s :
  decodes_to i x ->
  thread_body i s = Some (Return (JoinState (<[i:=x]> (res s)) (eptr s))).
Proof.
  intros (reader&id&Hr&Hid&Hx). unfold Parallel.thread_body.
  by rewrite !at_index_lookup, Hr, Hid, Hx.
Qed.

Lemma thread_body_fails i e s :
  fails_with i e -> kind e <> foreign_exception ->
  thread_body i s = Some (Return (JoinState (res s) (Some e))).
Proof.
  intros (reader&id&Hr&Hid&He) Hkind. unfold Parallel.thread_body.
  rewrite !at_index_lookup, Hr, Hid, He. by destruct (kind e).
Qed.

Lemma run_threads_app l1 l2 s :
  run_threads (l1 ++ l2) s =
  match run_threads l1 s with
  | Some (Return s') => run_threads l2 s'
  | other => other
  end.
Proof.
  revert s. induction l1 as [|i l1 IH]; intros s; [done|].
  cbn [app Parallel.run_threads].
  destruct (thread_body i s) as [[s'| |]|]; [apply IH|done..].
Qed.

(** Threads whose frames decode fill their own slots of [res] and leave
    [eptr] alone. *)
Lemma run_threads_decode (xs : list T) :
  (forall i x, xs !! i = Some x -> decodes_to i x) ->
  forall finished s,
    (forall i, i ∈ finished -> (i < length xs)%nat) ->
    length (res s) = length xs ->
    exists r,
      run_threads finished s = Some (Return (JoinState r (eptr s))) /\
      length r = length xs /\
      forall j, r !! j = if decide (j ∈ finished) then xs !! j else res s !! j.
Proof.
  intros Hok finished. induction finished as [|i rest IH]; intros s Hin Hlen.
  - exists (res s). split; [by destruct s|]. split; [done|].
    intros j. rewrite decide_False; [done|]. apply not_elem_of_nil.
  - destruct (lookup_lt_is_Some_2 xs i) as [x Hx].
    { apply Hin. left. }
    cbn [Parallel.run_threads]. rewrite (thread_body_decodes i x s (Hok _ _ Hx)).
    destruct (IH (JoinState (<[i:=x]> (res s)) (eptr s))) as (r&Hrun&Hr&Hslots).
    { intros j Hj. apply Hin. by right. }
    { cbn. by rewrite length_insert. }
    exists r. split; [done|]. split; [done|].
    intros j. rewrite Hslots. cbn [res].
    destruct (decide (j ∈ rest)) as [Hj|Hj].
    + rewrite decide_True; [done|]. by right.
    + destruct (decide (j = i)) as [->|Hji].
      * rewrite decide_True by left.
        rewrite list_lookup_insert_eq; [done|].
        rewrite Hlen. apply Hin. left.
      * rewrite decide_False.
        { by rewrite list_lookup_insert_ne. }
        intros [->|?]%elem_of_cons; done.
Qed.

(** Every thread ends, whatever its frame does, when no failure is
    foreign. *)
Lemma run_threads_returns :
  (forall reader id e, process_frame reader id = inl e -> kind e <> foreign_exception) ->
  forall finished s,
    (forall i, i ∈ finished ->
               (i < length video_readers)%nat /\ (i < length frame_ids)%nat) ->
    exists s', run_threads finished s = Some (Return s').
Proof.
  intros Hstd finished. induction finished as [|i rest IH]; intros s Hin; [by eexists|].
  destruct (Hin i) as [Hr Hid]; [left|].
  destruct (lookup_lt_is_Some_2 _ _ Hr) as [reader Hreader].
  destruct (lookup_lt_is_Some_2 _ _ Hid) as [id Hid'].
  cbn [Parallel.run_threads].
  destruct (process_frame reader id) as [e|x] eqn:Hx.
  - rewrite (thread_body_fails i e s); [|by exists reader, id|by eapply Hstd].
    apply IH. intros j Hj. apply Hin. by right.
  - rewrite (thread_body_decodes i x s); [|by exists reader, id].
    apply IH. intros j Hj. apply Hin. by right.
Qed.

Lemma run_threads_keeps_eptr :
  forall finished s,
    (forall j, j ∈ finished -> exists x, decodes_to j x) ->
    exists r, run_threads finished s = Some (Return (JoinState r (eptr s))).
Proof.
  intros finished. induction finished as [|i rest IH]; intros s Hok.
  - exists (res s). by destruct s.
  - destruct (Hok i) as [x Hx]; [left|].
    cbn [Parallel.run_threads]. rewrite (thread_body_decodes i x s Hx).
    destruct (IH (JoinState (<[i:=x]> (res s)) (eptr s))) as [r Hr].
    { intros j Hj. apply Hok. by right. }
    by exists r.
Qed.

(** X24. When every frame of the request decodes,
    [process_frames_in_parallel] returns the decoded frames in the order
    of the request, in whatever order the threads finish. *)
Theorem process_frames_in_parallel_request_order (filepaths : list string)
    (finished : list nat) (xs : list T) :
  finished ≡ₚ seq 0 (length filepaths) ->
  length xs = length filepaths ->
  (forall i x, xs !! i = Some x -> decodes_to i x) ->
  process_frames_in_parallel T Reader default process_frame
    filepaths frame_ids video_readers finished = Some (Return xs).
Proof.
  intros Hperm Hlen Hok. unfold process_frames_in_parallel.
  destruct (run_threads_decode xs Hok finished
              (JoinState (replicate (length filepaths) default) None))
    as (r&->&Hr&Hslots).
  { intros i Hi. rewrite Hperm in Hi. apply elem_of_seq in Hi. lia. }
  { cbn. by rewrite length_replicate. }
  cbn [eptr res]. do 2 f_equal.
  apply list_eq. intros j. rewrite Hslots.
  destruct (decide (j ∈ finished)) as [Hj|Hj]; [done|].
  assert (Hout : (length filepaths <= j)%nat).
  { destruct (decide (j < length filepaths)%nat) as [Hlt|]; [|lia].
    destruct Hj. rewrite Hperm. apply elem_of_seq. lia. }
  cbn [res]. rewrite (lookup_ge_None_2 xs j) by lia.
  apply lookup_ge_None_2. rewrite length_replicate. lia.
Qed.

(** X25. When a frame fails (with a [std::exception], as every failing
    frame does), [process_frames_in_parallel] returns no frames: it
    rethrows the failure of the thread that was the last to fail, the
    failures of the threads that finished before it being overwritten. *)
Theorem process_frames_in_parallel_rethrows_last_failure (filepaths : list string)
    (before after : list nat) (i : nat) (e : exception) :
  before ++ i :: after ≡ₚ seq 0 (length filepaths) ->
  length video_readers = length filepaths ->
  length frame_ids = length filepaths ->
  (forall reader id e', process_frame reader id = inl e' -> kind e' <> foreign_exception) ->
  fails_with i e ->
  (forall j, j ∈ after -> exists x, decodes_to j x) ->
  process_frames_in_parallel T Reader default process_frame
    filepaths frame_ids video_readers (before ++ i :: after) = Some (Throw e).
Proof.
  intros Hperm Hreaders Hids Hstd Hfail Hafter. unfold process_frames_in_parallel.
  rewrite run_threads_app.
  destruct (run_threads_returns Hstd before
              (JoinState (replicate (length filepaths) default) None)) as [s1 ->].
  { intros j Hj.
    assert (Hin : j ∈ seq 0 (length filepaths)).
    { rewrite <- Hperm. apply elem_of_app. by left. }
    apply elem_of_seq in Hin. lia. }
  cbn [Parallel.run_threads].
  rewrite (thread_body_fails i e s1 Hfail).
  2:{ destruct Hfail as (reader&id&_&_&He). by eapply Hstd. }
  destruct (run_threads_keeps_eptr after (JoinState (res s1) (Some e)) Hafter) as [r ->].
  done.
Qed.

End ProcessFrames.

Lemma process_frames_in_parallel_request_order_witness :
  process_frames_in_parallel Z Z 0 (fun reader id => inr (reader + id))
    ["A"; "B"; "C"]%string [1; 2; 3] [10; 20; 30] [2; 0; 1]%nat =
  Some (Return [11; 22; 33]).
Proof.
  apply (process_frames_in_parallel_request_order Z Z 0 (fun reader id => inr (reader + id))
           [10; 20; 30] [1; 2; 3] ["A"; "B"; "C"]%string [2; 0; 1]%nat [11; 22; 33]).
  - apply (Permutation_cons_append [0; 1]%nat 2%nat).
  - reflexivity.
  - intros [|[|[|i]]] x [= <-].
    + by exists 10, 1.
    + by exists 20, 2.
    + by exists 30, 3.
Defined.

Lemma process_frames_in_parallel_rethrows_last_failure_witness :
  process_frames_in_parallel Z Z 0
    (fun reader id => if decide (id = 2) then inr reader
                      else inl (Exception std_runtime_error "decode failed" [id]))
    ["A"; "B"; "C"]%string [1; 2; 3] [10; 20; 30] ([2%nat] ++ 0%nat :: [1%nat]) =
  Some (Throw (Exception std_runtime_error "decode failed" [1])).
Proof.
  apply (process_frames_in_parallel_rethrows_last_failure Z Z 0
           (fun reader id => if decide (id = 2) then inr reader
                             else inl (Exception std_runtime_error "decode failed" [id]))
           [10; 20; 30] [1; 2; 3] ["A"; "B"; "C"]%string [2%nat] [1%nat] 0%nat
           (Exception std_runtime_error "decode failed" [1])).
  - apply (Permutation_cons_append [0; 1]%nat 2%nat).
  - reflexivity.
  - reflexivity.
  - intros reader id e'. case_decide; [done|]. by intros [= <-].
  - by exists 10, 1.
  - intros j ->%list_elem_of_singleton. exists 20. by exists 20, 2.
Defined.

End ParallelProofs.
